(** * WechatPayment: request signing and response validation

    A shallow embedding of [src/payment.ts] (class [WechatPayment]): the
    canonical query string, the signature, request building with its
    required-field check, the response validator and the two-step
    [getBrandWCPayRequestParams] flow.

    Modelling conventions.
    - A JavaScript string is a [string] (a sequence of bytes); the default
      comparison of [Array.prototype.sort] is the lexicographic order on
      code units, here [String.le] on bytes.
    - A plain JavaScript object used as a field bag is an association list
      in insertion order with pairwise distinct keys ([wf]); a property
      read looks at own properties only and a missing property reads as
      [VUndefined]. [Object.keys] lists the keys in insertion order (the
      engine's reordering of integer-like keys is left out: every use of
      the key order in the class is followed by a sort or is per key).
    - A number is an integer ([VNum]) printed in decimal; the protocol
      carries amounts in integral units.
    - The digests, [encodeURIComponent], the XML builder and parser and
      the HTTP client are libraries outside the repository: they are the
      fields of the class [Libraries], a parameter of every operation.
      The random nonce and the time stamp are explicit arguments;
      [generateNonceStr] takes the sequence of its random draws.
    - Where a property depends on which object an operation writes to,
      the operation is given a second time on a heap of objects (the
      definitions named [...Ref]), with allocation and update in place.
    - Callbacks are continuations returning the trace of observable events
      ([event]): a network exchange, a delivery to the caller of the
      operation, the start of the second step of the two-step flow, an
      exception ([Raised]). A statement that raises ends the run of the
      code around it; the [try] of [signedQuery] keeps the events that
      came before and swallows the exception ([tryCatch]). Exceptions
      raised inside the libraries are outside the model, the rejection of
      the network exchange excepted. *)

From stdpp Require Import base decidable option list strings pretty gmap sorting.
From Stdlib Require Import ZArith Ascii String.

Local Open Scope string_scope.
Local Open Scope list_scope.

(** ** JavaScript values and string helpers *)

Inductive value : Type :=
| VUndefined
| VNull
| VStr (s : string)
| VNum (z : Z).

#[global] Instance value_eq_dec : EqDecision value.
Proof. solve_decision. Defined.

(** [if (v)]: undefined, null, the empty string and 0 are falsy. *)
Definition truthy (v : value) : bool :=
  match v with
  | VUndefined | VNull => false
  | VStr s => negb (String.eqb s "")
  | VNum z => negb (Z.eqb z 0)
  end.

(** String conversion, as string concatenation and [toString()] perform it. *)
Definition toStr (v : value) : string :=
  match v with
  | VUndefined => "undefined"
  | VNull => "null"
  | VStr s => s
  | VNum z => pretty z
  end.

(** [if (v !== undefined && v !== null) v = v.toString()]. *)
Definition stringify (v : value) : value :=
  match v with
  | VUndefined | VNull => v
  | _ => VStr (toStr v)
  end.

(** [a === b] and [a !== b] on primitive values. *)
Definition strictEq (a b : value) : bool := bool_decide (a = b).
Definition strictNe (a b : value) : bool := negb (strictEq a b).

(** [s.toUpperCase()] on the letters a-z. *)
Definition upperAscii (c : ascii) : ascii :=
  let n := nat_of_ascii c in
  if (97 <=? n)%nat && (n <=? 122)%nat then ascii_of_nat (n - 32) else c.

Fixpoint toUpperCase (s : string) : string :=
  match s with
  | EmptyString => EmptyString
  | String c s' => String (upperAscii c) (toUpperCase s')
  end.

(** [s.split(sep)] for a one-character separator: never the empty list. *)
Fixpoint split (sep : ascii) (s : string) : list string :=
  match s with
  | EmptyString => [EmptyString]
  | String c s' =>
      if Ascii.eqb c sep then EmptyString :: split sep s'
      else match split sep s' with
           | h :: t => String c h :: t
           | [] => [String c EmptyString]
           end
  end.

(** [s.trim()]: the white space and line terminators among the code
    units below 256. *)
Definition isSpace (c : ascii) : bool :=
  let n := nat_of_ascii c in
  ((9 <=? n)%nat && (n <=? 13)%nat) || (n =? 32)%nat || (n =? 160)%nat.

Fixpoint trimStart (s : string) : string :=
  match s with
  | EmptyString => EmptyString
  | String c s' => if isSpace c then trimStart s' else s
  end.

Fixpoint trimEnd (s : string) : string :=
  match s with
  | EmptyString => EmptyString
  | String c s' =>
      match trimEnd s' with
      | EmptyString => if isSpace c then EmptyString else String c EmptyString
      | t => String c t
      end
  end.

Definition trim (s : string) : string := trimEnd (trimStart s).

(** [a.join(sep)] on an array of strings. *)
Definition join (sep : string) (a : list string) : string := String.concat sep a.

(** ** Objects as insertion-ordered field maps *)

Abbreviation obj := (list (string * value)).

(** [Object.keys(o)]. *)
Definition keys (o : obj) : list string := o.*1.

Definition wf (o : obj) : Prop := NoDup (keys o).

Fixpoint lookup_field (o : obj) (k : string) : option value :=
  match o with
  | [] => None
  | (k', v) :: o' => if decide (k' = k) then Some v else lookup_field o' k
  end.

(** [o[k]]. *)
Definition get (o : obj) (k : string) : value :=
  default VUndefined (lookup_field o k).

(** [o[k] = v]: an existing property keeps its place, a new one goes last. *)
Fixpoint set (o : obj) (k : string) (v : value) : obj :=
  match o with
  | [] => [(k, v)]
  | (k', v') :: o' =>
      if decide (k' = k) then (k', v) :: o' else (k', v') :: set o' k v
  end.

(** [delete o[k]]. *)
Definition delete_field (o : obj) (k : string) : obj :=
  filter (λ kv, kv.1 ≠ k) o.

(** [_.extend(dst, src)]: copies every property of [src] onto [dst]. *)
Definition extend (dst src : obj) : obj :=
  foldl (λ d kv, set d kv.1 kv.2) dst src.

(** [_.clone(o)]: a shallow copy, [_.extend({}, o)]. *)
Definition clone (o : obj) : obj := extend [] o.

(** ** The client: configuration, endpoints, errors and events *)

Inductive WechatPaymentMode : Type := PRODUCTION | SANDBOX.

Inductive SignType : Type := MD5 | SHA1.

Record WechatApiUrls : Type := {
  UNIFIED_ORDER : string;
  ORDER_QUERY : string;
  REFUND : string;
  REFUND_QUERY : string;
  DOWNLOAD_BILL : string;
  SHORT_URL : string;
  CLOSE_ORDER : string;
  REDPACK_SEND : string;
  REDPACK_QUERY : string;
  TRANSFERS : string;
  TRANSFERS_QUERY : string
}.

Definition productionUrls : WechatApiUrls := {|
  UNIFIED_ORDER := "https://api.mch.weixin.qq.com/pay/unifiedorder";
  ORDER_QUERY := "https://api.mch.weixin.qq.com/pay/orderquery";
  REFUND := "https://api.mch.weixin.qq.com/secapi/pay/refund";
  REFUND_QUERY := "https://api.mch.weixin.qq.com/pay/refundquery";
  DOWNLOAD_BILL := "https://api.mch.weixin.qq.com/pay/downloadbill";
  SHORT_URL := "https://api.mch.weixin.qq.com/tools/shorturl";
  CLOSE_ORDER := "https://api.mch.weixin.qq.com/pay/closeorder";
  REDPACK_SEND := "https://api.mch.weixin.qq.com/mmpaymkttransfers/sendredpack";
  REDPACK_QUERY := "https://api.mch.weixin.qq.com/mmpaymkttransfers/gethbinfo";
  TRANSFERS := "https://api.mch.weixin.qq.com/mmpaymkttransfers/promotion/transfers";
  TRANSFERS_QUERY := "https://api.mch.weixin.qq.com/mmpaymkttransfers/gettransferinfo"
|}.

Definition sandboxUrls : WechatApiUrls := {|
  UNIFIED_ORDER := "https://api.mch.weixin.qq.com/sandbox/pay/unifiedorder";
  ORDER_QUERY := "https://api.mch.weixin.qq.com/sandbox/pay/orderquery";
  REFUND := "https://api.mch.weixin.qq.com/secapi/sandbox/pay/refund";
  REFUND_QUERY := "https://api.mch.weixin.qq.com/sandbox/pay/refundquery";
  DOWNLOAD_BILL := "https://api.mch.weixin.qq.com/sandbox/pay/downloadbill";
  SHORT_URL := "https://api.mch.weixin.qq.com/sandbox/tools/shorturl";
  CLOSE_ORDER := "https://api.mch.weixin.qq.com/sandbox/pay/closeorder";
  REDPACK_SEND := "https://api.mch.weixin.qq.com/sandbox/mmpaymkttransfers/sendredpack";
  REDPACK_QUERY := "https://api.mch.weixin.qq.com/sandbox/mmpaymkttransfers/gethbinfo";
  TRANSFERS := "https://api.mch.weixin.qq.com/sandbox/mmpaymkttransfers/promotion/transfers";
  TRANSFERS_QUERY := "https://api.mch.weixin.qq.com/sandbox/mmpaymkttransfers/gettransferinfo"
|}.

(** The fields of a [WechatPayment] instance after its constructor ran.
    The TypeScript interface types every field as a string; an option that
    was left out behaves as the empty string in every test the class makes
    ([if (defaults[k])], [self.subMchId && ...]). *)
Record WechatPayment : Type := {
  mode : WechatPaymentMode;
  appId : string;
  partnerKey : string;
  mchId : string;
  subMchId : string;
  notifyUrl : string;
  passphrase : string;
  pfx : string
}.

(** [initUrl]. *)
Definition urls (self : WechatPayment) : WechatApiUrls :=
  match mode self with
  | SANDBOX => sandboxUrls
  | PRODUCTION => productionUrls
  end.

(** An [Error] object: its [name] and its [message]. *)
Record JsError : Type := { name : string; message : string }.

(** [new Error(v)]: no message for [undefined]. *)
Definition newError (v : value) (n : string) : JsError :=
  {| name := n; message := match v with VUndefined => "" | _ => toStr v end |}.

(** First argument of a callback: a string or an [Error]; [None] is [null]. *)
Inductive error : Type :=
| ErrText (s : string)
| ErrObject (e : JsError).

(** Second argument of a callback. *)
Inductive payload : Type :=
| NoData
| RawBody (xml : string)
| Fields (data : obj).

(** Observable events of one call, in order of occurrence. *)
Inductive event : Type :=
| Network (url body : string)
| Delivered (err : option error) (data : payload)
| SecondStep
| Raised (exception : string).

Definition Callback : Type := option error → payload → list event.

(** [try { ... } catch (e) { }] around a run: the events up to the
    exception; the exception itself goes no further. *)
Fixpoint tryCatch (run : list event) : list event :=
  match run with
  | [] => []
  | Raised _ :: _ => []
  | e :: rest => e :: tryCatch rest
  end.

(** The callback of the immediate caller of an operation. *)
Definition deliver : Callback := λ err data, [Delivered err data].

(** [if (err)]. *)
Definition errTruthy (err : option error) : bool :=
  match err with
  | None => false
  | Some (ErrText s) => negb (String.eqb s "")
  | Some (ErrObject _) => true
  end.

(** [data.k] on the second argument of a callback. *)
Definition payloadGet (d : payload) (k : string) : value :=
  match d with
  | Fields data => get data k
  | _ => VUndefined
  end.

(** [v == "LITERAL"] for a literal that is not numeric. *)
Definition looseEqStr (v : value) (s : string) : bool :=
  match v with
  | VStr t => String.eqb t s
  | _ => false
  end.

(** Result of [xml2js.parseString]: an error; the parsed document
    ([json], [None] when it is falsy) reduced to the fields under its
    [xml] root ([json.xml]); or a document with another root, for which
    [json.xml] is undefined. *)
Inductive parsed : Type :=
| ParseError (msg : string)
| Parsed (json : option obj)
| ParsedOtherRoot.

(** Result of the HTTP exchange: the promise rejects or resolves. *)
Inductive exchange : Type :=
| Rejected (reason : string)
| Resolved (data : string).

(** The libraries the class calls: the digests, the URI escape, the XML
    builder and parser, and the HTTP client. *)
Class Libraries : Type := {
  md5 : string → string;
  sha1 : string → string;
  encodeURIComponent : string → string;
  buildXml : obj → string;
  parseString : string → parsed;
  axios_get : string → string → exchange
}.

(** ** The canonical string, as the specification words it *)

(** Lexicographic order by byte value (strict). *)
Fixpoint byteLt (s1 s2 : string) : Prop :=
  match s1, s2 with
  | _, EmptyString => False
  | EmptyString, String _ _ => True
  | String c1 s1', String c2 s2' =>
      (nat_of_ascii c1 < nat_of_ascii c2)%nat ∨ (c1 = c2 ∧ byteLt s1' s2')
  end.

(** The values the specification discards: undefined, null, the empty string. *)
Definition discardedSpec (v : value) : Prop :=
  v = VUndefined ∨ v = VNull ∨ v = VStr "".

(** The values the filter of [toQueryString] discards. *)
Definition discarded (v : value) : Prop :=
  v = VUndefined ∨ v = VStr "".

(** [s] is the canonical string of [m] when the fields whose value is in
    [drop] are discarded: the names other than [sign] that are kept, in
    increasing byte order, each as [name=value], joined with [&]. *)
Definition canonicalOf (drop : value → Prop) (m : obj) (s : string) : Prop :=
  ∃ names : list string,
    StronglySorted byteLt names ∧
    (∀ k, k ∈ names ↔ k ≠ "sign" ∧ ¬ drop (get m k)) ∧
    s = join "&" (map (λ k, k +:+ "=" +:+ toStr (get m k)) names).

(** The signature of a canonical string: the upper-cased digest of the
    string followed by [&key=] and the secret. *)
Definition signatureOf (digest : string → string) (secret canonicalString : string)
    : string :=
  toUpperCase (digest (canonicalString +:+ "&key=" +:+ secret)).

(** The error of the first check that fails, in the order of the list. *)
Fixpoint firstFailure (checks : list (bool * JsError)) : option JsError :=
  match checks with
  | [] => None
  | (failed, e) :: rest => if failed then Some e else firstFailure rest
  end.

(** A required entry is unsatisfied when none of its [|]-separated
    alternatives has a truthy value. *)
Definition unsatisfied (params : obj) (entry : string) : Prop :=
  ∀ alt, alt ∈ split "|" entry → truthy (get params alt) = false.

(** The names a synthetic response sets itself: the signature, the two
    status codes and the identity fields. *)
Definition reservedNames : list string :=
  ["sign"; "return_code"; "result_code"; "appid"; "mch_id"; "mchid"; "sub_mch_id"].

(** What the parser of [validate] ([trim: true], [explicitArray: false])
    reads back for a field that went through XML: the text of the
    element, trimmed; an undefined or a null value makes an empty
    element, which reads back as the empty string. *)
Definition parsedValue (v : value) : value :=
  match v with
  | VUndefined | VNull => VStr ""
  | _ => VStr (trim (toStr v))
  end.

Definition parsedFields (o : obj) : obj := map (λ kv, (kv.1, parsedValue kv.2)) o.

(** A value the parser reads back as it was written: not null, and
    without white space at either end. *)
Definition survivesParse (v : value) : bool :=
  match v with
  | VNull => false
  | VUndefined => true
  | _ => String.eqb (trim (toStr v)) (toStr v)
  end.

(** ** Objects behind references

    A variable of the program holds a reference; [_.clone] allocates a
    new object and [delete] updates the object a reference points to. *)

Abbreviation loc := nat.

Abbreviation heap := (gmap loc obj).

(** The object a reference points to. *)
Definition deref (h : heap) (l : loc) : obj := default [] (h !! l).

(** [_.clone(l)]: a fresh object holding a shallow copy. *)
Definition cloneRef (h : heap) (l : loc) : loc * heap :=
  let l' := fresh (dom h) in
  (l', <[l' := clone (deref h l)]> h).

(** [delete l[k]]: updates the object in place. *)
Definition deleteRef (h : heap) (l : loc) (k : string) : heap :=
  alter (λ o, delete_field o k) l h.

(** [{...}]: a new object. *)
Definition allocRef (h : heap) (o : obj) : loc * heap :=
  let l := fresh (dom h) in
  (l, <[l := o]> h).

(** [l[k] = v]: updates the object in place. *)
Definition setRef (h : heap) (l : loc) (k : string) (v : value) : heap :=
  alter (λ o, set o k v) l h.

(** [_.extend(dst, src)]: updates [dst] in place (and returns it). *)
Definition extendRef (h : heap) (dst src : loc) : heap :=
  alter (λ o, extend o (deref h src)) dst h.

(** ** Nonces and required fields *)

Definition nonceChars : string :=
  "ABCDEFGHIJKLMNOPQRSTUVWXYZabcdefghijklmnopqrstuvwxyz0123456789".

(** [s.charAt(i)]: the empty string when [i] is out of range. *)
Definition charAt (s : string) (i : nat) : string :=
  match String.get i s with
  | Some c => String c EmptyString
  | None => EmptyString
  end.

(** [generateNonceStr(length)]. [draws i] is the value of
    [Math.floor(Math.random() * maxPos)] at turn [i] of the loop;
    [length] is [None] when the argument is left out. *)
Definition generateNonceStr (draws : nat → nat) (length : option nat) : string :=
  let chars := nonceChars in
  let nonceStrLength :=
    match length with
    | Some (S n) => S n
    | Some 0 | None => 32
    end in
  foldl (λ noceStr i, noceStr +:+ charAt chars (draws i)) "" (seq 0 nonceStrLength).

(** The list [requiredData] of [unifiedOrder], for the [trade_type] of the
    order. *)
Definition requiredDataOf (trade_type : value) : list string :=
  ["body"; "out_trade_no"; "total_fee"; "spbill_create_ip"; "trade_type"]
  ++ (if looseEqStr trade_type "JSAPI" then ["openid|sub_openid"]
      else if looseEqStr trade_type "NATIVE" then ["product_id"]
      else []).

(** A value that is undefined, null or the empty string. *)
Definition blank (v : value) : bool :=
  match v with
  | VUndefined | VNull => true
  | VStr s => String.eqb s ""
  | VNum _ => false
  end.

(** A required entry none of whose alternatives holds a value. *)
Definition lacking (params : obj) (entry : string) : bool :=
  forallb (λ alt, blank (get params alt)) (split "|" entry).

(** The names of the errors the validator raises on parsed fields. *)
Definition validationErrors : list string :=
  [ "ProtocolError"; "BusinessError"; "InvalidAppId"; "InvalidMchId";
    "InvalidSubMchId"; "InvalidSignature" ].

(** ** Sample data

    A client, stand-ins for the libraries and a few field maps, on which
    the model is run. *)

Definition sampleClient : WechatPayment := {|
  mode := PRODUCTION;
  appId := "wx1";
  partnerKey := "key1";
  mchId := "mch1";
  subMchId := "";
  notifyUrl := "https://shop.example/notify";
  passphrase := "mch1";
  pfx := ""
|}.

Definition sampleSubClient : WechatPayment := {|
  mode := PRODUCTION;
  appId := "wx1";
  partnerKey := "key1";
  mchId := "mch1";
  subMchId := "sub1";
  notifyUrl := "https://shop.example/notify";
  passphrase := "mch1";
  pfx := ""
|}.

Definition sampleMd5 (text : string) : string := "md5:" +:+ text.

Definition sampleSha1 (text : string) : string := "sha1:" +:+ text.

Definition sampleEncode (s : string) : string := s.

Definition sampleXml (o : obj) : string :=
  "<xml>"
  +:+ join "" (map (λ kv, "<" +:+ kv.1 +:+ ">" +:+ toStr kv.2 +:+ "</" +:+ kv.1 +:+ ">") o)
  +:+ "</xml>".

(** A parser that reads every body as the given fields. *)
Definition sampleParse (data : obj) : string → parsed := λ _, Parsed (Some data).

(** A network that answers every request with the given body. *)
Definition sampleOnline (body : string) : string → string → exchange :=
  λ _ _, Resolved body.

(** A network that rejects every request. *)
Definition sampleOffline : string → string → exchange :=
  λ _ _, Rejected "ECONNREFUSED".

Definition sampleLibraries (data : obj) (network : string → string → exchange)
    : Libraries := {|
  md5 := sampleMd5;
  sha1 := sampleSha1;
  encodeURIComponent := sampleEncode;
  buildXml := sampleXml;
  parseString := sampleParse data;
  axios_get := network
|}.

Definition sampleOrder : obj :=
  [ ("body", VStr "T");
    ("out_trade_no", VStr "1");
    ("total_fee", VNum 100);
    ("spbill_create_ip", VStr "1.2.3.4");
    ("trade_type", VStr "NATIVE");
    ("product_id", VStr "p1") ].

Definition sampleSigned : obj :=
  [ ("b", VStr "2");
    ("sign", VStr "OLD");
    ("a", VStr "1");
    ("e", VStr "");
    ("u", VUndefined);
    ("n", VNull) ].

Definition sampleBusinessFailure : obj :=
  [ ("return_code", VStr "SUCCESS");
    ("result_code", VStr "FAIL");
    ("err_code", VStr "ORDERPAID");
    ("appid", VStr "other") ].

Definition sampleOrderResponse : obj :=
  [ ("return_code", VStr "SUCCESS");
    ("result_code", VStr "SUCCESS");
    ("prepay_id", VStr "abc");
    ("code_url", VStr "weixin://x");
    ("appid", VStr "wx1");
    ("mch_id", VStr "mch1");
    ("sign", VStr "MD5:APPID=WX1&CODE_URL=WEIXIN://X&MCH_ID=MCH1&PREPAY_ID=ABC&RESULT_CODE=SUCCESS&RETURN_CODE=SUCCESS&KEY=KEY1") ].

(** Business fields with white space around a value. *)
Definition samplePadded : obj :=
  [ ("out_trade_no", VStr "1");
    ("body", VStr " T ") ].

Definition sampleNoSubMch : obj :=
  [ ("return_code", VStr "SUCCESS");
    ("result_code", VStr "SUCCESS");
    ("appid", VStr "wx1");
    ("mch_id", VStr "mch1") ].

(** Libraries whose parser reads every body as nothing. *)
Definition sampleEmptyLibraries : Libraries := {|
  md5 := sampleMd5;
  sha1 := sampleSha1;
  encodeURIComponent := sampleEncode;
  buildXml := sampleXml;
  parseString := λ _, Parsed None;
  axios_get := sampleOnline "<xml/>"
|}.

(** The draws 0, 1, 2, ... of the random generator, kept below 62. *)
Definition sampleDraws (i : nat) : nat := i mod 62.

(** ** Proof automation *)

(** Well-formedness of an object literal: its keys are distinct constants. *)
Ltac solve_wf :=
  unfold wf, keys; cbn [fmap list_fmap fst];
  apply (bool_decide_unpack _); vm_compute; exact I.

(** Case analysis on every test of a chain of conditionals. *)
Ltac split_checks :=
  repeat match goal with |- context [if ?b then _ else _] => destruct b end;
  cbn; try discriminate; try reflexivity.

(** ** The operations of the class *)

Section Client.

Context {libs : Libraries}.

(** The instance the methods run on ([this], [self]). *)
Variable self : WechatPayment.

(** [extendWithDefault]; [nonce] is the result of its [generateNonceStr()]. *)
Definition extendWithDefault (nonce : string) (o : obj)
    (keysNeedExtend : list string) : obj :=
  let defaults : obj :=
    [ ("appid", VStr (appId self));
      ("mch_id", VStr (mchId self));
      ("sub_mch_id", VStr (subMchId self));
      ("nonce_str", VStr nonce);
      ("notify_url", VStr (notifyUrl self));
      ("op_user_id", VStr (mchId self));
      ("pfx", VStr (pfx self)) ] in
  let extendObject :=
    foldl (λ eo k, if truthy (get defaults k) then set eo k (get defaults k) else eo)
          [] keysNeedExtend in
  extend extendObject o.

Definition signByType (type : SignType) (text : string) : string :=
  match type with
  | SHA1 => sha1 text
  | MD5 => md5 text
  end.

Definition toQueryString (object : obj) : string :=
  join "&"
    (map (λ key, key +:+ "=" +:+ toStr (get object key))
       (merge_sort String.le
          (filter (λ key, get object key ≠ VUndefined ∧ get object key ≠ VStr "")
             (keys object)))).

(** The string [getSign] signs: [toQueryString] of the clone without
    its [sign] property. *)
Definition canonical (pkg : obj) : string :=
  toQueryString (delete_field (clone pkg) "sign").

Definition getSign (pkg : obj) (signType : option SignType) : string :=
  let pkg := delete_field (clone pkg) "sign" in
  let currentSignType := default MD5 signType in
  let string1 := toQueryString pkg in
  let stringSignTemp := string1 +:+ "&key=" +:+ partnerKey self in
  let signValue := toUpperCase (signByType currentSignType stringSignTemp) in
  signValue.

(** [getSign] on references: the parameter [pkg] is rebound to the
    clone, and the clone is the object [delete] updates. *)
Definition getSignRef (h : heap) (pkg : loc) (signType : option SignType)
    : string * heap :=
  let '(pkg, h) := cloneRef h pkg in
  let h := deleteRef h pkg "sign" in
  let currentSignType := default MD5 signType in
  let string1 := toQueryString (deref h pkg) in
  let stringSignTemp := string1 +:+ "&key=" +:+ partnerKey self in
  let signValue := toUpperCase (signByType currentSignType stringSignTemp) in
  (signValue, h).

(** The body of the callback [validate] hands to the XML parser, after
    a successful parse: the error it computes for [data]. *)
Definition checkResponse (data : obj) : option JsError :=
  if strictEq (get data "return_code") (VStr "FAIL") then
    Some (newError (get data "return_msg") "ProtocolError")
  else if strictEq (get data "result_code") (VStr "FAIL") then
    Some (newError (get data "err_code") "BusinessError")
  else if truthy (get data "appid") && strictNe (VStr (appId self)) (get data "appid") then
    Some (newError VUndefined "InvalidAppId")
  else if truthy (get data "mch_id") && strictNe (VStr (mchId self)) (get data "mch_id") then
    Some (newError VUndefined "InvalidMchId")
  else if truthy (get data "mchid") && strictNe (VStr (mchId self)) (get data "mchid") then
    Some (newError VUndefined "InvalidMchId")
  else if truthy (VStr (subMchId self))
          && strictNe (VStr (subMchId self)) (get data "sub_mch_id") then
    Some (newError VUndefined "InvalidSubMchId")
  else if truthy (get data "sign")
          && strictNe (VStr (getSign data None)) (get data "sign") then
    Some (newError VUndefined "InvalidSignature")
  else None.

Definition validate (xml : string) (callback : Callback) : list event :=
  match parseString xml with
  | ParseError msg =>
      callback (Some (ErrObject {| name := "XMLParseError"; message := msg |})) (RawBody xml)
  | Parsed json =>
      let data := default [] json in
      callback (ErrObject <$> checkResponse data) (Fields data)
  | ParsedOtherRoot =>
      (* [data] is undefined: [data.return_code] raises *)
      [Raised "TypeError"]
  end.

(** The first part of [signedQuery]: defaults merged, signature inserted,
    [long_url] escaped. *)
Definition mergedParams (nonce url : string) (params : obj) : obj :=
  let params :=
    if String.eqb url (REDPACK_SEND (urls self)) then
      extendWithDefault nonce params ["mch_id"; "nonce_str"]
    else if String.eqb url (TRANSFERS (urls self)) then
      extendWithDefault nonce params ["nonce_str"]
    else
      extendWithDefault nonce params ["appid"; "mch_id"; "sub_mch_id"; "nonce_str"] in
  let params := extend [("sign", VStr (getSign params None))] params in
  if truthy (get params "long_url") then
    set params "long_url" (VStr (encodeURIComponent (toStr (get params "long_url"))))
  else params.

(** The parameters [signedQuery] checks and sends: the merged ones, every
    value turned into a string by the loop over the keys. *)
Definition requestParams (nonce url : string) (params : obj) : obj :=
  map (λ kv, (kv.1, stringify kv.2)) (mergedParams nonce url params).

(** The entries of [required] that the loop over [required] pushes onto
    [missing]: the alternatives are tried from the last to the first. *)
Definition missingOf (params : obj) (required : list string) : list string :=
  filter (λ key, existsb (λ alt, truthy (get params alt)) (rev (split "|" key)) = false)
         required.

(** [signedQuery]; [required] is [options.required || []]. *)
Definition signedQuery (nonce url : string) (params : obj)
    (required : list string) (callback : Callback) : list event :=
  let params := requestParams nonce url params in
  let missing := missingOf params required in
  if negb (Nat.eqb (List.length missing) 0) then
    callback (Some (ErrText ("missing params " +:+ join "," missing))) NoData
  else
    Network url (buildXml params) ::
    match axios_get url (buildXml params) with
    | Resolved data => tryCatch (validate data callback)
    | Rejected e => []
    end.

Definition unifiedOrder (nonce : string) (params : obj) (callback : Callback)
    : list event :=
  let requiredData :=
    ["body"; "out_trade_no"; "total_fee"; "spbill_create_ip"; "trade_type"] in
  let requiredData :=
    if looseEqStr (get params "trade_type") "JSAPI" then
      requiredData ++ ["openid|sub_openid"]
    else if looseEqStr (get params "trade_type") "NATIVE" then
      requiredData ++ ["product_id"]
    else requiredData in
  let params :=
    set params "notify_url"
      (if truthy (get params "notify_url") then get params "notify_url"
       else VStr (notifyUrl self)) in
  signedQuery nonce (UNIFIED_ORDER (urls self)) params requiredData callback.

(** A response to a request, as a test builds it: the fields of the
    request, the two status codes set to success, the identity fields
    set to the configured ones, and the signature recomputed with the
    shared secret. *)
Definition syntheticResponse (request : obj) : obj :=
  let fields :=
    extend request
      [ ("return_code", VStr "SUCCESS");
        ("result_code", VStr "SUCCESS");
        ("appid", VStr (appId self));
        ("mch_id", VStr (mchId self));
        ("mchid", VStr (mchId self));
        ("sub_mch_id", VStr (subMchId self)) ] in
  set fields "sign" (VStr (getSign fields None)).

(** The checks of the validator with the error each one raises, in the
    order the specification lists them (the merchant id is looked up
    under two names). *)
Definition responseChecks (data : obj) : list (bool * JsError) :=
  [ (strictEq (get data "return_code") (VStr "FAIL"),
     newError (get data "return_msg") "ProtocolError");
    (strictEq (get data "result_code") (VStr "FAIL"),
     newError (get data "err_code") "BusinessError");
    (truthy (get data "appid") && strictNe (VStr (appId self)) (get data "appid"),
     newError VUndefined "InvalidAppId");
    (truthy (get data "mch_id") && strictNe (VStr (mchId self)) (get data "mch_id"),
     newError VUndefined "InvalidMchId");
    (truthy (get data "mchid") && strictNe (VStr (mchId self)) (get data "mchid"),
     newError VUndefined "InvalidMchId");
    (truthy (VStr (subMchId self))
     && strictNe (VStr (subMchId self)) (get data "sub_mch_id"),
     newError VUndefined "InvalidSubMchId");
    (truthy (get data "sign") && strictNe (VStr (getSign data None)) (get data "sign"),
     newError VUndefined "InvalidSignature") ].

(** The object [defaults] of [extendWithDefault]. *)
Definition defaultsOf (nonce : string) : obj :=
  [ ("appid", VStr (appId self));
    ("mch_id", VStr (mchId self));
    ("sub_mch_id", VStr (subMchId self));
    ("nonce_str", VStr nonce);
    ("notify_url", VStr (notifyUrl self));
    ("op_user_id", VStr (mchId self));
    ("pfx", VStr (pfx self)) ].

(** The keys [signedQuery] asks [extendWithDefault] for, by endpoint. *)
Definition defaultKeys (url : string) : list string :=
  if String.eqb url (REDPACK_SEND (urls self)) then ["mch_id"; "nonce_str"]
  else if String.eqb url (TRANSFERS (urls self)) then ["nonce_str"]
  else ["appid"; "mch_id"; "sub_mch_id"; "nonce_str"].

(** The endpoints of a table other than the red-packet and the transfer
    endpoints. *)
Definition identityEndpoints (u : WechatApiUrls) : list string :=
  [ UNIFIED_ORDER u; ORDER_QUERY u; REFUND u; REFUND_QUERY u; DOWNLOAD_BILL u;
    SHORT_URL u; CLOSE_ORDER u; REDPACK_QUERY u; TRANSFERS_QUERY u ].

(** [extendWithDefault] on references: [defaults] and [extendObject] are
    new objects; [_.extend] updates [extendObject], which is returned. *)
Definition extendWithDefaultRef (nonce : string) (h : heap) (obj : loc)
    (keysNeedExtend : list string) : loc * heap :=
  let '(defaults, h) := allocRef h (defaultsOf nonce) in
  let '(extendObject, h) := allocRef h [] in
  let h :=
    foldl (λ h k, if truthy (get (deref h defaults) k)
                  then setRef h extendObject k (get (deref h defaults) k)
                  else h)
          h keysNeedExtend in
  let h := extendRef h extendObject obj in
  (extendObject, h).

(** The part of [signedQuery] that builds the parameters, on references:
    the variable [params] is rebound twice to a new object, and the two
    loops update that object in place. *)
Definition requestParamsRef (nonce url : string) (h : heap) (params : loc)
    : loc * heap :=
  let '(params, h) :=
    if String.eqb url (REDPACK_SEND (urls self)) then
      extendWithDefaultRef nonce h params ["mch_id"; "nonce_str"]
    else if String.eqb url (TRANSFERS (urls self)) then
      extendWithDefaultRef nonce h params ["nonce_str"]
    else
      extendWithDefaultRef nonce h params ["appid"; "mch_id"; "sub_mch_id"; "nonce_str"] in
  let '(signValue, h) := getSignRef h params None in
  let '(signed, h) := allocRef h [("sign", VStr signValue)] in
  let h := extendRef h signed params in
  let params := signed in
  let h :=
    if truthy (get (deref h params) "long_url") then
      setRef h params "long_url"
        (VStr (encodeURIComponent (toStr (get (deref h params) "long_url"))))
    else h in
  let h :=
    foldl (λ h key, match get (deref h params) key with
                    | VUndefined | VNull => h
                    | v => setRef h params key (VStr (toStr v))
                    end)
          h (keys (deref h params)) in
  (params, h).

(** [unifiedOrder] on references, up to the parameters [signedQuery]
    builds: the list of required fields, the assignment to
    [params.notify_url], the request parameters. *)
Definition unifiedOrderRef (nonce : string) (h : heap) (params : loc)
    : list string * (loc * heap) :=
  let requiredData := requiredDataOf (get (deref h params) "trade_type") in
  let h :=
    setRef h params "notify_url"
      (if truthy (get (deref h params) "notify_url")
       then get (deref h params) "notify_url"
       else VStr (notifyUrl self)) in
  (requiredData, requestParamsRef nonce (UNIFIED_ORDER (urls self)) h params).

(** [getBrandWCPayRequestParams] on references, up to the same point:
    [default_params] is a new object and [order] is rebound to the result
    of [extendWithDefault] before [unifiedOrder] runs on it. *)
Definition brandWCPayOrderRef (timeStamp nonceStr nonce1 nonce2 : string)
    (h : heap) (order : loc) : list string * (loc * heap) :=
  let '(default_params, h) :=
    allocRef h [ ("appId", VStr (appId self));
                 ("timeStamp", VStr timeStamp);
                 ("nonceStr", VStr nonceStr);
                 ("signType", VStr "MD5") ] in
  let '(order, h) := extendWithDefaultRef nonce1 h order ["notify_url"] in
  unifiedOrderRef nonce2 h order.

End Client.

(** The callback [getBrandWCPayRequestParams] passes to [unifiedOrder]: a
    plain [function], so that [this] in its body is the receiver of the
    call that runs it, [None] when it is called without one; without a
    receiver [this.getSign] raises. [SecondStep] marks the point where
    the second payload starts being built. *)
Definition brandWCPayContinuation {libs : Libraries} (this : option WechatPayment)
    (default_params order : obj) (callback : Callback) : Callback :=
  λ err data,
    if errTruthy err then callback err NoData
    else
      SecondStep ::
      (let params :=
         extend default_params
           [("package", VStr ("prepay_id=" +:+ toStr (payloadGet data "prepay_id")))] in
       match this with
       | None => [Raised "TypeError"]
       | Some this =>
           let params := set params "paySign" (VStr (getSign this params None)) in
           let params :=
             if looseEqStr (get order "trade_type") "NATIVE" then
               set params "code_url" (payloadGet data "code_url")
             else if looseEqStr (get order "trade_type") "MWEB" then
               set params "mweb_url" (payloadGet data "mweb_url")
             else params in
           let params := set params "timestamp" (get params "timeStamp") in
           callback None (Fields params)
       end).

(** [timeStamp] and the nonces are the results of [generateTimeStamp()]
    and of the successive [generateNonceStr()] calls. [validate] and
    [signedQuery] call their callback as [callback(...)], without a
    receiver. *)
Definition getBrandWCPayRequestParams {libs : Libraries} (self : WechatPayment)
    (timeStamp nonceStr nonce1 nonce2 : string)
    (order : obj) (callback : Callback) : list event :=
  let default_params : obj :=
    [ ("appId", VStr (appId self));
      ("timeStamp", VStr timeStamp);
      ("nonceStr", VStr nonceStr);
      ("signType", VStr "MD5") ] in
  let order := extendWithDefault self nonce1 order ["notify_url"] in
  unifiedOrder self nonce2 order (brandWCPayContinuation None default_params order callback).

(** The names [toQueryString] renders, in the order it renders them. *)
Definition signedNames (object : obj) : list string :=
  merge_sort String.le
    (filter (λ key, get object key ≠ VUndefined ∧ get object key ≠ VStr "")
       (keys object)).

(** The number of outcomes a run hands to the caller of the operation. *)
Definition deliveries (run : list event) : nat :=
  List.length
    (List.filter (λ e, match e with Delivered _ _ => true | _ => false end) run).

(** What a callback makes of the events of a run made with [deliver]. *)
Definition replay (callback : Callback) (e : event) : list event :=
  match e with
  | Delivered err data => callback err data
  | _ => [e]
  end.

(** ** Facts about strings and objects *)

Lemma byteLt_irrefl s : ¬ byteLt s s.
Proof.
  induction s as [|c s IH]; simpl; [tauto|].
  intros [Hlt|[_ Hs]]; [lia|auto].
Qed.

Lemma ascii_compare_lt c1 c2 :
  Ascii.compare c1 c2 = Lt ↔ (nat_of_ascii c1 < nat_of_ascii c2)%nat.
Proof.
  unfold Ascii.compare, nat_of_ascii. rewrite N.compare_lt_iff. lia.
Qed.

Lemma compare_byteLt s1 s2 : String.compare s1 s2 = Lt ↔ byteLt s1 s2.
Proof.
  revert s2. induction s1 as [|c1 s1 IH]; intros [|c2 s2]; simpl; try easy.
  destruct (Ascii.compare c1 c2) eqn:Hc.
  - apply Ascii.compare_eq_iff in Hc as ->. rewrite IH.
    split; [auto|]. intros [?|[_ ?]]; [lia|done].
  - apply ascii_compare_lt in Hc. split; auto.
  - split; [done|]. intros [Hlt|[-> _]].
    + apply ascii_compare_lt in Hlt. congruence.
    + unfold Ascii.compare in Hc. rewrite N.compare_refl in Hc. done.
Qed.

Lemma le_byteLt s1 s2 : String.le s1 s2 ↔ s1 = s2 ∨ byteLt s1 s2.
Proof.
  rewrite <-compare_byteLt. unfold String.le, String.leb.
  destruct (String.compare s1 s2) eqn:Hc; simpl.
  - apply String.compare_eq_iff in Hc. tauto.
  - tauto.
  - split; [done|]. intros [->|?]; [|done].
    assert (String.le s2 s2) as Hr by reflexivity.
    unfold String.le, String.leb in Hr. rewrite Hc in Hr. done.
Qed.

Lemma lookup_field_elem_of o k v : lookup_field o k = Some v → (k, v) ∈ o.
Proof.
  induction o as [|[k' v'] o IH]; simpl; [done|].
  destruct (decide (k' = k)) as [->|]; intros H.
  - injection H as ->. left.
  - right. auto.
Qed.

Lemma lookup_field_None o k : lookup_field o k = None ↔ k ∉ keys o.
Proof.
  unfold keys. induction o as [|[k' v'] o IH]; simpl.
  - split; [intros _; apply not_elem_of_nil|done].
  - rewrite not_elem_of_cons. destruct (decide (k' = k)) as [->|Hne].
    + split; [done|]. intros [? _]. done.
    + rewrite IH. split; [|tauto]. intros ?. split; [congruence|done].
Qed.

Lemma elem_of_lookup_field o k v : wf o → (k, v) ∈ o → lookup_field o k = Some v.
Proof.
  unfold wf, keys. induction o as [|[k' v'] o IH]; simpl.
  - intros _ H. by apply elem_of_nil in H.
  - intros [Hk' Hnd]%NoDup_cons [Heq|Hin]%elem_of_cons.
    + injection Heq as -> ->. by rewrite decide_True.
    + destruct (decide (k' = k)) as [->|]; [|auto].
      exfalso. apply Hk'. apply (list_elem_of_fmap_2 fst) in Hin. done.
Qed.

Lemma get_defined_keys o k : get o k ≠ VUndefined → k ∈ keys o.
Proof.
  unfold get. intros H. destruct (decide (k ∈ keys o)) as [|Hn]; [done|].
  apply lookup_field_None in Hn. rewrite Hn in H. done.
Qed.

Lemma lookup_field_set o k v k' :
  lookup_field (set o k v) k' = if decide (k = k') then Some v else lookup_field o k'.
Proof.
  induction o as [|[k0 v0] o IH]; simpl.
  - destruct (decide (k = k')); done.
  - destruct (decide (k0 = k)) as [->|Hne]; simpl.
    + destruct (decide (k = k')); done.
    + rewrite IH. destruct (decide (k0 = k')) as [->|]; [|done].
      by rewrite decide_False by congruence.
Qed.

Lemma get_set o k v k' : get (set o k v) k' = if decide (k = k') then v else get o k'.
Proof. unfold get. rewrite lookup_field_set. by destruct (decide (k = k')). Qed.

Lemma set_fresh o k v : k ∉ keys o → set o k v = o ++ [(k, v)].
Proof.
  unfold keys. induction o as [|[k0 v0] o IH]; simpl; [done|].
  rewrite not_elem_of_cons. intros [Hne Hn].
  rewrite decide_False by congruence. by rewrite IH.
Qed.

Lemma keys_set_elem o k v k' : k' ∈ keys (set o k v) ↔ k' = k ∨ k' ∈ keys o.
Proof.
  unfold keys. induction o as [|[k0 v0] o IH]; simpl.
  - rewrite list_elem_of_singleton. split; [auto|]. intros [?|H]; [done|].
    by apply elem_of_nil in H.
  - destruct (decide (k0 = k)) as [->|Hne]; simpl; rewrite !elem_of_cons.
    + tauto.
    + rewrite IH. tauto.
Qed.

Lemma wf_set o k v : wf o → wf (set o k v).
Proof.
  unfold wf. induction o as [|[k0 v0] o IH]; simpl.
  - intros _. apply NoDup_singleton.
  - intros [Hk0 Hnd]%NoDup_cons. destruct (decide (k0 = k)) as [->|Hne]; simpl.
    + by apply NoDup_cons.
    + apply NoDup_cons. split; [|by apply IH].
      fold (keys (set o k v)). rewrite keys_set_elem. intros [?|?]; done.
Qed.

Lemma wf_extend d s : wf d → wf (extend d s).
Proof.
  unfold extend. revert d. induction s as [|[k v] s IH]; intros d Hd; simpl; [done|].
  apply IH. by apply wf_set.
Qed.

Lemma extend_fresh d s : wf (d ++ s) → extend d s = d ++ s.
Proof.
  unfold extend, wf, keys. revert d.
  induction s as [|[k v] s IH]; intros d Hnd; simpl.
  - by rewrite app_nil_r.
  - assert (k ∉ keys d) as Hk.
    { rewrite fmap_app in Hnd. apply NoDup_app in Hnd as (_ & Hdis & _).
      intros Hin. apply (Hdis k Hin). simpl. left. }
    rewrite (set_fresh _ _ _ Hk). rewrite IH; rewrite <-app_assoc; done.
Qed.

Lemma clone_wf o : wf o → clone o = o.
Proof. intros Ho. unfold clone. by rewrite extend_fresh. Qed.

Lemma get_cons k0 v0 o k :
  get ((k0, v0) :: o) k = if decide (k0 = k) then v0 else get o k.
Proof. unfold get. simpl. by destruct (decide (k0 = k)). Qed.

Lemma get_extend d s k :
  wf s → get (extend d s) k = if decide (k ∈ keys s) then get s k else get d k.
Proof.
  unfold extend, wf, keys. revert d.
  induction s as [|[k0 v0] s IH]; intros d Hnd.
  - done.
  - rewrite fmap_cons in Hnd |- *. cbn [foldl fst snd] in *.
    apply NoDup_cons in Hnd as [Hk0 Hnd]. rewrite (IH _ Hnd).
    rewrite get_cons, get_set.
    destruct (decide (k ∈ s.*1)) as [Hin|Hnin].
    + rewrite (decide_True (P := k ∈ k0 :: s.*1)) by (by right).
      destruct (decide (k0 = k)) as [->|]; done.
    + destruct (decide (k0 = k)) as [->|Hne].
      * by rewrite (decide_True (P := k ∈ k :: s.*1)) by left.
      * rewrite decide_False; [done|].
        rewrite not_elem_of_cons. split; [congruence|done].
Qed.

Lemma lookup_field_delete o k k' :
  lookup_field (delete_field o k) k' = if decide (k = k') then None else lookup_field o k'.
Proof.
  unfold delete_field. induction o as [|[k0 v0] o IH].
  - by destruct (decide (k = k')).
  - rewrite filter_cons. cbn [fst].
    destruct (decide (k0 ≠ k)) as [Hne|Heq]; cbn [lookup_field].
    + rewrite IH. destruct (decide (k0 = k')) as [->|]; [|done].
      by rewrite decide_False by congruence.
    + apply dec_stable in Heq as ->. rewrite IH.
      destruct (decide (k = k')); done.
Qed.

Lemma get_delete o k k' :
  get (delete_field o k) k' = if decide (k = k') then VUndefined else get o k'.
Proof. unfold get. rewrite lookup_field_delete. by destruct (decide (k = k')). Qed.

Lemma wf_delete o k : wf o → wf (delete_field o k).
Proof.
  unfold wf, keys, delete_field. induction o as [|[k0 v0] o IH]; [done|].
  rewrite fmap_cons. intros [Hk0 Hnd]%NoDup_cons. rewrite filter_cons.
  destruct (decide _); [|by apply IH].
  rewrite fmap_cons. apply NoDup_cons. split; [|by apply IH].
  intros Hin. apply Hk0. apply list_elem_of_fmap in Hin as (kv & -> & Hkv).
  apply list_elem_of_filter in Hkv as [_ Hkv]. by apply (list_elem_of_fmap_2 fst).
Qed.

(** ** The canonical string *)

Lemma toQueryString_names o :
  toQueryString o = join "&" (map (λ k, k +:+ "=" +:+ toStr (get o k)) (signedNames o)).
Proof. reflexivity. Qed.

Lemma signedNames_elem o k :
  k ∈ signedNames o ↔ get o k ≠ VUndefined ∧ get o k ≠ VStr "".
Proof.
  unfold signedNames. rewrite merge_sort_Permutation, list_elem_of_filter.
  split; [tauto|]. intros [Hu He]. auto using get_defined_keys.
Qed.

Lemma signedNames_NoDup o : wf o → NoDup (signedNames o).
Proof.
  intros Ho. unfold signedNames. rewrite merge_sort_Permutation.
  by apply NoDup_filter.
Qed.

Lemma signedNames_sorted o : StronglySorted String.le (signedNames o).
Proof. apply StronglySorted_merge_sort; apply _. Qed.

Lemma byteLt_sorted_iff l :
  StronglySorted byteLt l ↔ StronglySorted String.le l ∧ NoDup l.
Proof.
  induction l as [|x l IH].
  - split; [split|]; constructor.
  - rewrite !StronglySorted_cons, NoDup_cons, IH. split.
    + intros [Hall [Hs Hnd]]. repeat split; [|done| |done].
      * eapply Forall_impl; [exact Hall|]. intros y ?. apply le_byteLt. by right.
      * intros Hin. rewrite Forall_forall in Hall.
        by apply (byteLt_irrefl x), Hall.
    + intros [[Hall Hs] [Hx Hnd]]. repeat split; [|done..].
      rewrite Forall_forall in Hall |- *. intros y Hy.
      destruct (proj1 (le_byteLt x y) (Hall y Hy)) as [->|]; done.
Qed.

Lemma byteLt_sorted_unique l1 l2 :
  StronglySorted byteLt l1 → StronglySorted byteLt l2 →
  (∀ k, k ∈ l1 ↔ k ∈ l2) → l1 = l2.
Proof.
  intros [H1 N1]%byteLt_sorted_iff [H2 N2]%byteLt_sorted_iff Hel.
  apply (StronglySorted_unique String.le); [done..|].
  by apply NoDup_Permutation.
Qed.

Lemma not_discarded v : ¬ discarded v ↔ v ≠ VUndefined ∧ v ≠ VStr "".
Proof. unfold discarded. tauto. Qed.

Lemma render_ext (o1 o2 : obj) (l : list string) :
  (∀ k, k ∈ l → get o1 k = get o2 k) →
  map (λ k, k +:+ "=" +:+ toStr (get o1 k)) l
  = map (λ k, k +:+ "=" +:+ toStr (get o2 k)) l.
Proof.
  intros H. apply map_ext_in. intros k Hk%list_elem_of_In. by rewrite H.
Qed.

Lemma toQueryString_ext o1 o2 :
  wf o1 → wf o2 →
  (∀ k, get o1 k = get o2 k ∨ (discarded (get o1 k) ∧ discarded (get o2 k))) →
  toQueryString o1 = toQueryString o2.
Proof.
  intros W1 W2 Hget. rewrite !toQueryString_names.
  assert (signedNames o1 = signedNames o2) as ->.
  { apply byteLt_sorted_unique.
    - apply byteLt_sorted_iff. auto using signedNames_sorted, signedNames_NoDup.
    - apply byteLt_sorted_iff. auto using signedNames_sorted, signedNames_NoDup.
    - intros k. rewrite !signedNames_elem, <-!not_discarded.
      destruct (Hget k) as [->|[? ?]]; tauto. }
  f_equal. apply render_ext. intros k Hk%signedNames_elem%not_discarded.
  destruct (Hget k) as [?|[? ?]]; tauto.
Qed.

Lemma canonical_wf m : wf m → canonical m = toQueryString (delete_field m "sign").
Proof. intros W. unfold canonical. by rewrite clone_wf. Qed.

Lemma canonical_names_elem m k :
  k ∈ signedNames (delete_field m "sign") ↔ k ≠ "sign" ∧ ¬ discarded (get m k).
Proof.
  rewrite signedNames_elem, get_delete, not_discarded.
  destruct (decide ("sign" = k)) as [<-|Hne]; [tauto|].
  split; [intros ?; split; [congruence|done]|tauto].
Qed.

Lemma canonical_sound m : wf m → canonicalOf discarded m (canonical m).
Proof.
  intros W. exists (signedNames (delete_field m "sign")). split; [|split].
  - apply byteLt_sorted_iff.
    auto using signedNames_sorted, signedNames_NoDup, wf_delete.
  - apply canonical_names_elem.
  - rewrite canonical_wf, toQueryString_names by done. f_equal.
    apply render_ext. intros k [Hne _]%canonical_names_elem.
    rewrite get_delete. by rewrite decide_False.
Qed.

Lemma canonicalOf_functional drop m s1 s2 :
  canonicalOf drop m s1 → canonicalOf drop m s2 → s1 = s2.
Proof.
  intros (l1 & S1 & E1 & ->) (l2 & S2 & E2 & ->).
  assert (l1 = l2) as ->; [|done].
  apply byteLt_sorted_unique; [done..|]. intros k. by rewrite E1, E2.
Qed.

Lemma same_pairs_get m1 m2 :
  wf m1 → wf m2 → (∀ k v, (k, v) ∈ m1 ↔ (k, v) ∈ m2) → ∀ k, get m1 k = get m2 k.
Proof.
  intros W1 W2 Hsame k. unfold get.
  destruct (lookup_field m1 k) as [v|] eqn:H1.
  - apply lookup_field_elem_of, Hsame, (elem_of_lookup_field _ _ _ W2) in H1.
    by rewrite H1.
  - destruct (lookup_field m2 k) as [v|] eqn:H2; [|done].
    apply lookup_field_elem_of, Hsame, (elem_of_lookup_field _ _ _ W1) in H2.
    congruence.
Qed.

Lemma wf_filter (P : string * value → Prop) `{∀ kv, Decision (P kv)} (m : obj) :
  wf m → wf (filter P m).
Proof.
  unfold wf, keys. induction m as [|[k v] m IH]; [done|].
  rewrite fmap_cons. intros [Hk Hnd]%NoDup_cons. rewrite filter_cons.
  destruct (decide _); [|by apply IH].
  rewrite fmap_cons. apply NoDup_cons. split; [|by apply IH].
  intros Hin. apply Hk. apply list_elem_of_fmap in Hin as (kv & -> & Hkv).
  apply list_elem_of_filter in Hkv as [_ Hkv]. by apply (list_elem_of_fmap_2 fst).
Qed.

Lemma get_filter_kept (m : obj) k :
  wf m →
  get (filter (λ kv, kv.2 ≠ VUndefined ∧ kv.2 ≠ VStr "") m) k = get m k
  ∨ (discarded (get (filter (λ kv, kv.2 ≠ VUndefined ∧ kv.2 ≠ VStr "") m) k)
     ∧ discarded (get m k)).
Proof.
  intros W. set (m' := filter _ m).
  assert (wf m') as W' by by apply wf_filter.
  unfold get. destruct (lookup_field m' k) as [v|] eqn:H1.
  - left. apply lookup_field_elem_of, list_elem_of_filter in H1 as [_ H1].
    by rewrite (elem_of_lookup_field _ _ _ W H1).
  - destruct (lookup_field m k) as [v|] eqn:H2; [|by left].
    destruct (decide (discarded v)) as [Hd|Hd]; [right; split; [by left|done]|].
    apply not_discarded in Hd. apply lookup_field_elem_of in H2.
    assert ((k, v) ∈ m') as Hin by (by apply list_elem_of_filter).
    apply (elem_of_lookup_field _ _ _ W') in Hin. congruence.
Qed.

(** C1 (as amended). For every field map, the string [getSign] signs is the
    one obtained by removing the [sign] field, discarding every field whose
    value is undefined or the empty string (a null value is kept and shows
    as [null]), sorting the remaining names by byte value, rendering each
    as [name=value] and joining the pairs with [&]; the empty field map
    yields the empty string. *)
Theorem canonical_characterised (m : obj) :
  wf m →
  (∀ s, canonicalOf discarded m s ↔ s = canonical m) ∧ canonical [] = "".
Proof.
  intros W. split; [|reflexivity]. intros s. split.
  - intros Hs. eapply canonicalOf_functional; [exact Hs|]. by apply canonical_sound.
  - intros ->. by apply canonical_sound.
Qed.

(** C8. Two field maps holding the same name/value pairs, in any insertion
    order, have the same canonical string; the fields whose value is empty
    or absent do not contribute to it, as in the example
    [{a: "1", b: "", c: undefined}] against [{a: "1"}]. *)
Theorem toQueryString_order_independent (m1 m2 : obj) :
  wf m1 → wf m2 →
  (∀ k v, (k, v) ∈ m1 ↔ (k, v) ∈ m2) →
  toQueryString m1 = toQueryString m2
  ∧ canonical m1 = canonical m2
  ∧ toQueryString (filter (λ kv, kv.2 ≠ VUndefined ∧ kv.2 ≠ VStr "") m1)
    = toQueryString m1
  ∧ toQueryString [("a", VStr "1"); ("b", VStr ""); ("c", VUndefined)]
    = toQueryString [("a", VStr "1")].
Proof.
  intros W1 W2 Hsame.
  pose proof (same_pairs_get m1 m2 W1 W2 Hsame) as Hget.
  repeat split.
  - apply toQueryString_ext; auto.
  - rewrite !canonical_wf by done.
    apply toQueryString_ext; auto using wf_delete.
    intros k. left. by rewrite !get_delete, Hget.
  - apply toQueryString_ext; auto using wf_filter.
    intros k. by apply get_filter_kept.
Qed.

(** C1, as stated, fails: a field whose value is null is not discarded;
    the canonical string of [{a: null}] is [a=null], whereas the string
    obtained by discarding null values is the empty one. *)
Lemma canonical_keeps_null :
  canonical [("a", VNull)] = "a=null"
  ∧ ¬ canonicalOf discardedSpec [("a", VNull)] (canonical [("a", VNull)]).
Proof.
  split; [reflexivity|].
  intros (names & _ & Hel & Hs).
  assert (names = []) as ->.
  { apply elem_of_nil_inv. intros k [Hk Hd]%Hel. apply Hd.
    rewrite get_cons. destruct (decide ("a" = k)); [right; by left|by left]. }
  discriminate Hs.
Qed.

(** ** Comparisons, the required-field check and string conversion of fields *)

Lemma strictEq_true a b : strictEq a b = true ↔ a = b.
Proof. unfold strictEq. by rewrite bool_decide_eq_true. Qed.

Lemma strictEq_false a b : strictEq a b = false ↔ a ≠ b.
Proof. unfold strictEq. by rewrite bool_decide_eq_false. Qed.

Lemma strictNe_true a b : strictNe a b = true ↔ a ≠ b.
Proof. unfold strictNe. by rewrite negb_true_iff, strictEq_false. Qed.

Lemma strictNe_false a b : strictNe a b = false ↔ a = b.
Proof. unfold strictNe. by rewrite negb_false_iff, strictEq_true. Qed.

Lemma get_absent o k : lookup_field o k = None → get o k = VUndefined.
Proof. unfold get. by intros ->. Qed.

Lemma unsatisfied_existsb params entry :
  unsatisfied params entry
  ↔ existsb (λ alt, truthy (get params alt)) (rev (split "|" entry)) = false.
Proof.
  unfold unsatisfied. split.
  - intros Hall. apply not_true_is_false. intros (alt & Hin & Ht)%existsb_exists.
    apply in_rev, list_elem_of_In, Hall in Hin. congruence.
  - intros Hex alt Hin. apply not_true_is_false. intros Ht.
    assert (existsb (λ alt, truthy (get params alt)) (rev (split "|" entry)) = true)
      as Hyes; [|congruence].
    apply existsb_exists. exists alt. split; [|done].
    by apply in_rev; rewrite rev_involutive; apply list_elem_of_In.
Qed.

#[global] Instance unsatisfied_dec params entry : Decision (unsatisfied params entry).
Proof.
  refine (cast_if (decide (existsb (λ alt, truthy (get params alt))
                             (rev (split "|" entry)) = false)));
    by rewrite unsatisfied_existsb.
Defined.

Lemma missingOf_unsatisfied params required :
  missingOf params required = filter (unsatisfied params) required.
Proof.
  unfold missingOf. apply list_filter_iff. intros entry.
  by rewrite unsatisfied_existsb.
Qed.

Lemma missingOf_nil params required :
  missingOf params required = [] ↔ ¬ ∃ entry, entry ∈ required ∧ unsatisfied params entry.
Proof.
  rewrite missingOf_unsatisfied. split.
  - intros Hnil (entry & Hin & Hun).
    by apply (filter_nil_not_elem_of _ _ entry Hnil Hun).
  - intros Hno. apply elem_of_nil_inv. intros entry [Hun Hin]%list_elem_of_filter.
    apply Hno. eauto.
Qed.

Lemma pretty_N_go_nonempty (x : N) s : s ≠ "" → pretty_N_go x s ≠ "".
Proof.
  revert s. induction (N.lt_wf_0 x) as [x _ IH]. intros s Hs.
  destruct (decide (x = 0%N)) as [->|Hx]; [done|].
  rewrite pretty_N_go_step by lia. apply IH; [|done].
  apply N.div_lt; lia.
Qed.

Lemma pretty_N_nonempty (x : N) : pretty x ≠ "".
Proof.
  unfold pretty, pretty_N. destruct (decide (x = 0%N)); [done|].
  rewrite pretty_N_go_step by lia. by apply pretty_N_go_nonempty.
Qed.

Lemma toStr_num_nonempty z : toStr (VNum z) ≠ "".
Proof.
  cbn [toStr]. unfold pretty, pretty_Z. destruct z as [|x|x]; [done| |done].
  apply pretty_N_nonempty.
Qed.

(** After the conversion to strings a value is truthy unless it was
    undefined, null or the empty string: the number 0 is present. *)
Lemma truthy_stringify v :
  truthy (stringify v) = true ↔ v ≠ VUndefined ∧ v ≠ VNull ∧ v ≠ VStr "".
Proof.
  destruct v as [| |s|z]; cbn [stringify truthy toStr].
  - split; [done|]. intros (? & _). done.
  - split; [done|]. intros (_ & ? & _). done.
  - rewrite negb_true_iff, String.eqb_neq. split; [|intros (_ & _ & ?); congruence].
    intros ?. repeat split; congruence.
  - rewrite negb_true_iff, String.eqb_neq. split; [done|].
    intros _. apply toStr_num_nonempty.
Qed.

Lemma keys_stringify (o : obj) : keys (map (λ kv, (kv.1, stringify kv.2)) o) = keys o.
Proof.
  unfold keys. induction o as [|[k v] o IH]; [done|].
  cbn [map]. rewrite !fmap_cons. cbn [fst]. by rewrite IH.
Qed.

Lemma get_stringify (o : obj) k :
  get (map (λ kv, (kv.1, stringify kv.2)) o) k = stringify (get o k).
Proof.
  induction o as [|[k0 v0] o IH]; [done|].
  cbn [map fst snd]. rewrite !get_cons. by destruct (decide (k0 = k)).
Qed.

Lemma wf_nil : wf [].
Proof. apply NoDup_nil_2. Qed.

Lemma wf_foldl_set {A} (f : obj → A → obj) (l : list A) (o : obj) :
  (∀ o a, wf o → wf (f o a)) → wf o → wf (foldl f o l).
Proof.
  intros Hf. revert o. induction l as [|a l IH]; intros o W; [done|].
  cbn [foldl]. auto.
Qed.

Lemma get_extend_sign v (o : obj) k :
  wf o → k ≠ "sign" → get (extend [("sign", v)] o) k = get o k.
Proof.
  intros W Hne. rewrite get_extend by done.
  destruct (decide (k ∈ keys o)) as [|Hn]; [done|].
  rewrite get_cons, decide_False by done.
  apply lookup_field_None in Hn. unfold get. by rewrite Hn.
Qed.

Lemma wf_stringify (o : obj) : wf o → wf (map (λ kv, (kv.1, stringify kv.2)) o).
Proof. unfold wf. by rewrite keys_stringify. Qed.

Lemma reserved_elem k :
  k ∈ reservedNames
  ↔ k = "sign" ∨ k = "return_code" ∨ k = "result_code" ∨ k = "appid"
    ∨ k = "mch_id" ∨ k = "mchid" ∨ k = "sub_mch_id".
Proof. unfold reservedNames. rewrite !elem_of_cons, elem_of_nil. tauto. Qed.

Lemma canonical_set_sign (o : obj) v : wf o → canonical (set o "sign" v) = canonical o.
Proof.
  intros W. rewrite !canonical_wf by auto using wf_set.
  apply toQueryString_ext; auto using wf_delete, wf_set.
  intros k. left. rewrite !get_delete, get_set.
  by destruct (decide ("sign" = k)).
Qed.

Lemma keys_extend_elem (d s : obj) k : k ∈ keys (extend d s) ↔ k ∈ keys d ∨ k ∈ keys s.
Proof.
  unfold extend. revert d. induction s as [|[k0 v0] s IH]; intros d; cbn [foldl fst snd].
  - unfold keys at 3. rewrite fmap_nil, elem_of_nil. tauto.
  - rewrite IH, keys_set_elem. unfold keys at 4. rewrite fmap_cons, elem_of_cons.
    cbn [fst]. fold (keys s). tauto.
Qed.

Lemma stringify_discarded v : discarded (stringify v) ↔ discarded v.
Proof.
  unfold discarded. destruct v as [| |s|z]; cbn [stringify toStr]; try tauto.
  split; intros [|H]; try discriminate.
  injection H as H. by apply toStr_num_nonempty in H.
Qed.

Lemma toStr_stringify v : toStr (stringify v) = toStr v.
Proof. by destruct v. Qed.

Lemma toQueryString_ext_render o1 o2 :
  wf o1 → wf o2 →
  (∀ k, (discarded (get o1 k) ↔ discarded (get o2 k))
        ∧ (¬ discarded (get o1 k) → toStr (get o1 k) = toStr (get o2 k))) →
  toQueryString o1 = toQueryString o2.
Proof.
  intros W1 W2 Hk. rewrite !toQueryString_names.
  assert (signedNames o1 = signedNames o2) as ->.
  { apply byteLt_sorted_unique.
    - apply byteLt_sorted_iff. auto using signedNames_sorted, signedNames_NoDup.
    - apply byteLt_sorted_iff. auto using signedNames_sorted, signedNames_NoDup.
    - intros k. rewrite !signedNames_elem, <-!not_discarded.
      destruct (Hk k) as [-> _]. done. }
  f_equal. apply map_ext_in. intros k Hin%list_elem_of_In%signedNames_elem%not_discarded.
  destruct (Hk k) as [Hd Hs]. rewrite Hs; [done|]. by rewrite Hd.
Qed.

Lemma canonical_ext_render o1 o2 :
  wf o1 → wf o2 →
  (∀ k, k ≠ "sign" →
        (discarded (get o1 k) ↔ discarded (get o2 k))
        ∧ (¬ discarded (get o1 k) → toStr (get o1 k) = toStr (get o2 k))) →
  canonical o1 = canonical o2.
Proof.
  intros W1 W2 Hk. rewrite !canonical_wf by done.
  apply toQueryString_ext_render; auto using wf_delete.
  intros k. rewrite !get_delete. destruct (decide ("sign" = k)) as [<-|Hne]; [done|].
  apply Hk. congruence.
Qed.

Lemma canonical_stringify (o : obj) :
  wf o → canonical (map (λ kv, (kv.1, stringify kv.2)) o) = canonical o.
Proof.
  intros W. apply canonical_ext_render; auto using wf_stringify.
  intros k _. rewrite get_stringify. split.
  - apply stringify_discarded.
  - intros _. apply toStr_stringify.
Qed.

Lemma keys_parsedFields (o : obj) : keys (parsedFields o) = keys o.
Proof.
  unfold keys, parsedFields. rewrite <- list_fmap_compose. by apply list_fmap_ext.
Qed.

Lemma wf_parsedFields (o : obj) : wf o → wf (parsedFields o).
Proof. unfold wf. by rewrite keys_parsedFields. Qed.

Lemma get_parsedFields (o : obj) k :
  get (parsedFields o) k = if decide (k ∈ keys o) then parsedValue (get o k) else VUndefined.
Proof.
  unfold get. induction o as [|[k0 v0] o IH]; [done|].
  cbn [parsedFields map lookup_field fst snd]. fold (parsedFields o).
  unfold keys. rewrite fmap_cons. cbn [fst]. fold (keys o).
  destruct (decide (k0 = k)) as [->|Hne].
  - rewrite decide_True by left. done.
  - rewrite IH. destruct (decide (k ∈ keys o)) as [Hin|Hn].
    + rewrite decide_True by (by right). done.
    + rewrite decide_False; [done|]. rewrite elem_of_cons. intros [?|?]; congruence.
Qed.

Lemma survivesParse_string (s : string) : survivesParse (VStr s) = true → trim s = s.
Proof. cbn. apply String.eqb_eq. Qed.

Lemma survivesParse_get (o : obj) :
  forallb (λ kv, survivesParse kv.2) o = true → ∀ k, survivesParse (get o k) = true.
Proof.
  intros Hall k. unfold get. induction o as [|[k0 v0] o IH]; [done|].
  cbn [forallb snd] in Hall. apply andb_true_iff in Hall as [H0 Hall].
  cbn [lookup_field]. destruct (decide (k0 = k)); [done|]. by apply IH.
Qed.

(** ** Signing, validation and request building *)

Section Properties.

Context {libs : Libraries} (self : WechatPayment).

Lemma getSign_canonical pkg signType :
  getSign self pkg signType
  = signatureOf (signByType (default MD5 signType)) (partnerKey self)
      (canonical pkg).
Proof. reflexivity. Qed.

Lemma getSignRef_heap h pkg signType :
  (getSignRef self h pkg signType).2
  = <[fresh (dom h) := delete_field (clone (deref h pkg)) "sign"]> h.
Proof.
  unfold getSignRef, cloneRef, deleteRef. cbn [snd].
  rewrite alter_insert_eq. done.
Qed.

Lemma getSignRef_value h pkg signType :
  (getSignRef self h pkg signType).1 = getSign self (deref h pkg) signType.
Proof.
  unfold getSignRef, getSign, cloneRef, deleteRef. cbn [fst].
  rewrite alter_insert_eq. unfold deref at 1. by rewrite lookup_insert_eq.
Qed.

Lemma getSignRef_frame h pkg signType l o :
  h !! l = Some o → (getSignRef self h pkg signType).2 !! l = Some o.
Proof.
  intros Hl. rewrite getSignRef_heap, lookup_insert_ne; [done|].
  intros <-. assert (fresh (dom h) ∈ dom h) as Hin by (apply elem_of_dom; eauto).
  by apply is_fresh in Hin.
Qed.

(** C2. [getSign] is the upper-cased digest of the canonical string
    followed by [&key=] and the partner key, the digest being SHA1 when
    asked for and MD5 otherwise (also when no algorithm is given); it is
    a function of the field map, the secret and the algorithm only: run
    on a reference, in any heap, it returns the signature of the object
    the reference points to. *)
Theorem getSign_is_signature (pkg : obj) (signType : option SignType)
    (h : heap) (l : loc) :
  getSign self pkg signType
  = signatureOf
      (match signType with Some SHA1 => sha1 | Some MD5 | None => md5 end)
      (partnerKey self) (canonical pkg)
  ∧ getSign self pkg None = getSign self pkg (Some MD5)
  ∧ (getSignRef self h l signType).1
    = signatureOf
        (match signType with Some SHA1 => sha1 | Some MD5 | None => md5 end)
        (partnerKey self) (canonical (deref h l)).
Proof.
  split; [|split].
  - rewrite getSign_canonical. by destruct signType as [[]|].
  - reflexivity.
  - rewrite getSignRef_value, getSign_canonical. by destruct signType as [[]|].
Qed.

(** C10. [getSign] never mutates its argument: after the call the
    object the caller passed holds the keys and values it held before,
    also when it has a [sign] field, and so does every other object of
    the heap; the signature returned is the one of that object. *)
Theorem getSign_preserves_argument (h : heap) (pkg : loc) (o : obj)
    (signType : option SignType) :
  h !! pkg = Some o →
  (getSignRef self h pkg signType).2 !! pkg = Some o
  ∧ (∀ l o', h !! l = Some o' → (getSignRef self h pkg signType).2 !! l = Some o')
  ∧ (getSignRef self h pkg signType).1 = getSign self o signType.
Proof.
  intros Hpkg. split; [|split].
  - by apply getSignRef_frame.
  - intros l o'. apply getSignRef_frame.
  - rewrite getSignRef_value. unfold deref. by rewrite Hpkg.
Qed.

(** ** The response validator *)

Lemma checkResponse_firstFailure data :
  checkResponse self data = firstFailure (responseChecks self data).
Proof.
  unfold checkResponse, responseChecks. cbn [firstFailure].
  repeat (match goal with |- context [if ?b then _ else _] => destruct b end;
          try reflexivity).
Qed.

(** C4. After a successful parse the validator applies its checks to the
    parsed fields in the order ProtocolError, BusinessError, InvalidAppId,
    InvalidMchId, InvalidSubMchId, InvalidSignature and reports the first
    that fails; a response with [return_code] SUCCESS and [result_code]
    FAIL yields BusinessError with the business error code; a response
    that passes the two status checks and whose [appid] differs from the
    configured one yields InvalidAppId whatever its signature. *)
Theorem validate_check_order (xml : string) (json : option obj) (callback : Callback) :
  parseString xml = Parsed json →
  let data := default [] json in
  validate self xml callback
  = callback (ErrObject <$> firstFailure (responseChecks self data)) (Fields data)
  ∧ (get data "return_code" = VStr "SUCCESS" →
     get data "result_code" = VStr "FAIL" →
     validate self xml callback
     = callback (Some (ErrObject (newError (get data "err_code") "BusinessError")))
         (Fields data))
  ∧ (get data "return_code" ≠ VStr "FAIL" →
     get data "result_code" ≠ VStr "FAIL" →
     truthy (get data "appid") = true →
     get data "appid" ≠ VStr (appId self) →
     validate self xml callback
     = callback (Some (ErrObject (newError VUndefined "InvalidAppId"))) (Fields data)).
Proof.
  intros Hparse data. unfold validate. rewrite Hparse. fold data.
  rewrite checkResponse_firstFailure. split; [done|]. split.
  - intros Hrc Hres. unfold responseChecks. cbn [firstFailure].
    rewrite (proj2 (strictEq_false _ _)) by (rewrite Hrc; discriminate).
    by rewrite (proj2 (strictEq_true _ _)) by done.
  - intros Hrc Hres Happ Hne. unfold responseChecks. cbn [firstFailure].
    rewrite !(proj2 (strictEq_false _ _)) by done.
    rewrite Happ, (proj2 (strictNe_true _ _)) by congruence. done.
Qed.

(** C7 (as amended). The app-id check and each of the two merchant-id
    checks is skipped when its field is absent from the response: the
    outcome is the one of the other checks, so that a response without an
    [appid] field never yields InvalidAppId and one without both
    merchant-id fields never yields InvalidMchId, for any client. The
    sub-merchant check depends on the client: for a client that has no
    sub-merchant id it is skipped, whereas for a client configured with
    one a response without a [sub_mch_id] field, once it passes the
    earlier checks, yields InvalidSubMchId. *)
Theorem absent_identity_fields (data : obj) :
  (lookup_field data "appid" = None →
   checkResponse self data = firstFailure (delete 2 (responseChecks self data))
   ∧ name <$> checkResponse self data ≠ Some "InvalidAppId")
  ∧ (lookup_field data "mch_id" = None →
     checkResponse self data = firstFailure (delete 3 (responseChecks self data)))
  ∧ (lookup_field data "mchid" = None →
     checkResponse self data = firstFailure (delete 4 (responseChecks self data)))
  ∧ (lookup_field data "mch_id" = None → lookup_field data "mchid" = None →
     name <$> checkResponse self data ≠ Some "InvalidMchId")
  ∧ (lookup_field data "sub_mch_id" = None → subMchId self = "" →
     checkResponse self data = firstFailure (delete 5 (responseChecks self data))
     ∧ name <$> checkResponse self data ≠ Some "InvalidSubMchId")
  ∧ (lookup_field data "sub_mch_id" = None → subMchId self ≠ "" →
     firstFailure (take 5 (responseChecks self data)) = None →
     checkResponse self data = Some (newError VUndefined "InvalidSubMchId")).
Proof.
  rewrite checkResponse_firstFailure. unfold responseChecks.
  cbn [firstFailure take delete list_delete].
  split; [|split; [|split; [|split; [|split]]]].
  - intros Ha%get_absent. rewrite Ha. split; [reflexivity|].
    cbn [truthy andb]. split_checks.
  - intros H1%get_absent. rewrite H1. reflexivity.
  - intros H2%get_absent. rewrite H2. reflexivity.
  - intros H1%get_absent H2%get_absent. rewrite H1, H2. cbn [truthy andb].
    split_checks.
  - intros _ ->. split; [reflexivity|].
    cbn [truthy String.eqb negb andb]. split_checks.
  - intros Hs%get_absent Hcfg. rewrite Hs.
    assert (truthy (VStr (subMchId self)) = true) as ->.
    { cbn [truthy]. apply negb_true_iff. by apply String.eqb_neq. }
    rewrite (proj2 (strictNe_true (VStr (subMchId self)) VUndefined)) by discriminate.
    cbn [andb]. split_checks; done.
Qed.

(** ** Request building and the required-field check *)

Lemma signedQuery_unfold nonce url params required callback :
  signedQuery self nonce url params required callback
  = match missingOf (requestParams self nonce url params) required with
    | [] =>
        Network url (buildXml (requestParams self nonce url params)) ::
        match axios_get url (buildXml (requestParams self nonce url params)) with
        | Resolved data => tryCatch (validate self data callback)
        | Rejected _ => []
        end
    | _ :: _ =>
        callback
          (Some (ErrText ("missing params "
                          +:+ join "," (missingOf (requestParams self nonce url params) required))))
          NoData
    end.
Proof.
  unfold signedQuery.
  by destruct (missingOf (requestParams self nonce url params) required).
Qed.

(** X3. The required-field check reads the converted parameters: a field
    counts as present when its merged value is neither undefined, null
    nor the empty string. *)
Theorem requestParams_truthy nonce url params alt :
  truthy (get (requestParams self nonce url params) alt) = true
  ↔ get (mergedParams self nonce url params) alt ≠ VUndefined
    ∧ get (mergedParams self nonce url params) alt ≠ VNull
    ∧ get (mergedParams self nonce url params) alt ≠ VStr "".
Proof. unfold requestParams. by rewrite get_stringify, truthy_stringify. Qed.

(** C6. Request building fails if and only if some entry of the required
    list has no alternative with a truthy value among the parameters the
    request carries (defaults merged, signature inserted, values turned
    into strings); the failure is the error [missing params] followed by
    all the unsatisfied entries joined with commas, handed to the callback
    with no network exchange before it; otherwise the network exchange is
    the first event. *)
Theorem signedQuery_missing_fields (nonce url : string) (params : obj)
    (required : list string) (callback : Callback) :
  let p := requestParams self nonce url params in
  let failure :=
    Some (ErrText ("missing params " +:+ join "," (filter (unsatisfied p) required))) in
  ((∃ entry, entry ∈ required ∧ unsatisfied p entry) →
   signedQuery self nonce url params required callback = callback failure NoData)
  ∧ (¬ (∃ entry, entry ∈ required ∧ unsatisfied p entry) →
     signedQuery self nonce url params required callback
     = Network url (buildXml p) ::
       match axios_get url (buildXml p) with
       | Resolved data => tryCatch (validate self data callback)
       | Rejected _ => []
       end)
  ∧ (signedQuery self nonce url params required deliver = [Delivered failure NoData]
     ↔ ∃ entry, entry ∈ required ∧ unsatisfied p entry).
Proof.
  intros p failure. subst failure.
  rewrite !signedQuery_unfold. fold p. rewrite <-missingOf_unsatisfied.
  destruct (missingOf p required) as [|e rest] eqn:Hm.
  - apply missingOf_nil in Hm. split; [tauto|]. split; [done|].
    split; [discriminate|tauto].
  - assert (∃ entry, entry ∈ required ∧ unsatisfied p entry) as Hex.
    { exists e. rewrite <-(and_comm (unsatisfied p e)).
      apply (list_elem_of_filter (unsatisfied p)).
      rewrite <-missingOf_unsatisfied, Hm. left. }
    split; [done|]. split; [tauto|]. split; [done|]. done.
Qed.

(** When the network exchange is rejected the run ends there: the
    callback is never called. *)
Lemma signedQuery_rejected nonce url params required callback reason :
  missingOf (requestParams self nonce url params) required = [] →
  axios_get url (buildXml (requestParams self nonce url params)) = Rejected reason →
  signedQuery self nonce url params required callback
  = [Network url (buildXml (requestParams self nonce url params))].
Proof. intros Hm Hr. by rewrite signedQuery_unfold, Hm, Hr. Qed.

(** ** Round trip: a request and the response to it *)

Lemma wf_extendWithDefault nonce o ks : wf (extendWithDefault self nonce o ks).
Proof.
  unfold extendWithDefault. apply wf_extend.
  apply wf_foldl_set; [|apply wf_nil].
  intros eo k W. destruct (truthy _); auto using wf_set.
Qed.

Lemma get_extendWithDefault nonce o ks k :
  wf o → k ∈ keys o → get (extendWithDefault self nonce o ks) k = get o k.
Proof.
  intros W Hin. unfold extendWithDefault. rewrite get_extend by done.
  by rewrite decide_True.
Qed.

Lemma wf_requestParams nonce url params : wf (requestParams self nonce url params).
Proof.
  unfold requestParams, mergedParams. apply wf_stringify. cbv zeta.
  assert (∀ o, wf (extend [("sign", VStr (getSign self o None))] o)) as Hs.
  { intros o. apply wf_extend. apply NoDup_singleton. }
  destruct (truthy _); auto using wf_set.
Qed.

Lemma get_requestParams nonce url params k v :
  wf params → (k, v) ∈ params → k ≠ "sign" → k ≠ "long_url" →
  get (requestParams self nonce url params) k = stringify v.
Proof.
  intros W Hin Hs Hl. unfold requestParams, mergedParams. rewrite get_stringify. f_equal.
  assert (k ∈ keys params) as Hk by (by apply (list_elem_of_fmap_2 fst) in Hin).
  assert (get params k = v) as Hv.
  { unfold get. by rewrite (elem_of_lookup_field _ _ _ W Hin). }
  assert (∀ ks, get (extend [("sign", VStr (getSign self (extendWithDefault self nonce params ks) None))]
                       (extendWithDefault self nonce params ks)) k = v) as Hext.
  { intros ks. rewrite get_extend_sign by auto using wf_extendWithDefault.
    by rewrite get_extendWithDefault. }
  repeat match goal with |- context [if ?b then _ else _] => destruct b end;
    rewrite ?get_set, ?decide_False by congruence; apply Hext.
Qed.

Lemma get_requestParams_long_url nonce url params v :
  wf params → ("long_url", v) ∈ params → truthy v = true →
  get (requestParams self nonce url params) "long_url"
  = VStr (encodeURIComponent (toStr v)).
Proof.
  intros W Hin Ht. unfold requestParams, mergedParams. rewrite get_stringify.
  assert ("long_url" ∈ keys params) as Hk by (by apply (list_elem_of_fmap_2 fst) in Hin).
  assert (get params "long_url" = v) as Hv.
  { unfold get. by rewrite (elem_of_lookup_field _ _ _ W Hin). }
  assert (∀ ks, get (extend [("sign", VStr (getSign self (extendWithDefault self nonce params ks) None))]
                       (extendWithDefault self nonce params ks)) "long_url" = v) as Hext.
  { intros ks. rewrite get_extend_sign by auto using wf_extendWithDefault.
    by rewrite get_extendWithDefault. }
  destruct (String.eqb url (REDPACK_SEND (urls self)));
    [|destruct (String.eqb url (TRANSFERS (urls self)))];
    rewrite Hext, Ht, get_set, decide_True by done; done.
Qed.

Lemma getSign_set_sign (o : obj) v signType :
  wf o → getSign self (set o "sign" v) signType = getSign self o signType.
Proof. intros W. by rewrite !getSign_canonical, canonical_set_sign. Qed.

(** A response with success status codes, the configured identity fields
    and the signature of its own fields passes every check. *)
Lemma checkResponse_accepts (data : obj) :
  get data "return_code" = VStr "SUCCESS" →
  get data "result_code" = VStr "SUCCESS" →
  get data "appid" = VStr (appId self) →
  get data "mch_id" = VStr (mchId self) →
  get data "mchid" = VStr (mchId self) →
  get data "sub_mch_id" = VStr (subMchId self) →
  get data "sign" = VStr (getSign self data None) →
  checkResponse self data = None.
Proof.
  intros Hrc Hres Happ Hmch Hmchid Hsub Hsign. unfold checkResponse.
  rewrite Hrc, Hres, Happ, Hmch, Hmchid, Hsub, Hsign.
  rewrite !(proj2 (strictEq_false (VStr "SUCCESS") (VStr "FAIL"))) by discriminate.
  rewrite !(proj2 (strictNe_false _ _)) by done.
  by rewrite !andb_false_r.
Qed.

Lemma get_syntheticResponse (request : obj) k :
  k ∉ reservedNames → get (syntheticResponse self request) k = get request k.
Proof.
  intros Hk. unfold syntheticResponse. cbv zeta.
  assert (k ≠ "sign") as Hs by (intros ->; apply Hk, reserved_elem; tauto).
  rewrite get_set, decide_False by done.
  rewrite get_extend by solve_wf.
  rewrite decide_False; [done|].
  intros Hin. apply Hk, reserved_elem.
  cbn [keys fmap list_fmap fst] in Hin. rewrite !elem_of_cons, elem_of_nil in Hin.
  tauto.
Qed.

Lemma checkResponse_syntheticResponse (request : obj) :
  wf request → checkResponse self (syntheticResponse self request) = None.
Proof.
  intros W. unfold syntheticResponse. cbv zeta.
  set (fields := extend request _).
  assert (wf fields) as Wf by by apply wf_extend.
  assert (∀ k v, k ≠ "sign" →
                 get fields k = v → get (set fields "sign" (VStr (getSign self fields None))) k = v)
    as Hkeep.
  { intros k v Hne <-. by rewrite get_set, decide_False. }
  apply checkResponse_accepts;
    try (apply Hkeep; [discriminate|]; unfold fields;
         rewrite get_extend by solve_wf; reflexivity).
  rewrite getSign_set_sign by done. rewrite get_set. by rewrite decide_True.
Qed.

Lemma get_requestParams_falsy_long_url nonce url params v :
  wf params → ("long_url", v) ∈ params → truthy v = false →
  get (requestParams self nonce url params) "long_url" = stringify v.
Proof.
  intros W Hin Ht. unfold requestParams, mergedParams. rewrite get_stringify. f_equal.
  assert ("long_url" ∈ keys params) as Hk by (by apply (list_elem_of_fmap_2 fst) in Hin).
  assert (get params "long_url" = v) as Hv.
  { unfold get. by rewrite (elem_of_lookup_field _ _ _ W Hin). }
  assert (∀ ks, get (extend [("sign", VStr (getSign self (extendWithDefault self nonce params ks) None))]
                       (extendWithDefault self nonce params ks)) "long_url" = v) as Hext.
  { intros ks. rewrite get_extend_sign by auto using wf_extendWithDefault.
    by rewrite get_extendWithDefault. }
  destruct (String.eqb url (REDPACK_SEND (urls self)));
    [|destruct (String.eqb url (TRANSFERS (urls self)))];
    rewrite !Hext, Ht; done.
Qed.

Lemma keys_mergedParams nonce url params k v :
  (k, v) ∈ params → k ∈ keys (mergedParams self nonce url params).
Proof.
  intros Hin%(list_elem_of_fmap_2 fst). cbn [fst] in Hin. fold (keys params) in Hin.
  unfold mergedParams, extendWithDefault. cbv zeta.
  repeat match goal with |- context [if ?b then _ else _] => destruct b end;
    rewrite ?keys_set_elem, !keys_extend_elem; tauto.
Qed.

Lemma wf_syntheticResponse (request : obj) : wf request → wf (syntheticResponse self request).
Proof. intros W. unfold syntheticResponse. cbv zeta. by apply wf_set, wf_extend. Qed.

Lemma get_syntheticResponse_sign (request : obj) :
  wf request →
  get (syntheticResponse self request) "sign"
  = VStr (getSign self (syntheticResponse self request) None).
Proof.
  intros W. unfold syntheticResponse. cbv zeta.
  rewrite getSign_set_sign by (by apply wf_extend).
  by rewrite get_set, decide_True.
Qed.

Lemma get_syntheticResponse_own (request : obj) :
  get (syntheticResponse self request) "return_code" = VStr "SUCCESS"
  ∧ get (syntheticResponse self request) "result_code" = VStr "SUCCESS"
  ∧ get (syntheticResponse self request) "appid" = VStr (appId self)
  ∧ get (syntheticResponse self request) "mch_id" = VStr (mchId self)
  ∧ get (syntheticResponse self request) "mchid" = VStr (mchId self)
  ∧ get (syntheticResponse self request) "sub_mch_id" = VStr (subMchId self).
Proof.
  unfold syntheticResponse. cbv zeta.
  repeat split; rewrite get_set, decide_False by discriminate;
    rewrite get_extend by solve_wf; reflexivity.
Qed.

(** A response that the parser reads back as written is accepted after
    the parse exactly as before it: same signature, same checks. *)
Lemma getSign_parsedFields (o : obj) signType :
  wf o → (∀ k, survivesParse (get o k) = true) →
  getSign self (parsedFields o) signType = getSign self o signType.
Proof.
  intros W Hs. rewrite !getSign_canonical. f_equal.
  apply canonical_ext_render; [by apply wf_parsedFields|done|].
  intros k _. rewrite get_parsedFields. specialize (Hs k).
  destruct (decide (k ∈ keys o)) as [Hin|Hn];
    [|by rewrite (get_absent o k) by (by apply lookup_field_None)].
  destruct (get o k) as [| |s|z] eqn:Hv.
  - split; [|intros Hd; exfalso; apply Hd; by right].
    split; intros _; [by left|by right].
  - discriminate.
  - apply survivesParse_string in Hs. cbn [parsedValue toStr]. by rewrite Hs.
  - apply String.eqb_eq in Hs. cbn [parsedValue]. rewrite Hs. split; [|done].
    split; intros [Hd|Hd]; try discriminate.
    injection Hd as Hd. by apply toStr_num_nonempty in Hd.
Qed.

(** C3 (as amended). Round trip: the request built for a field map of
    business fields (defaults merged, signature inserted), then a
    synthetic response carrying the fields of that request, the
    configured identity fields, success status codes and a signature
    recomputed with the same secret, read by the parser of [validate].
    When the parser reads every value of the response back as it was
    written (no null, no white space at either end of a string), the
    validator reports no error and returns the parsed response, in which
    every business field not named like a field the response sets itself
    is found in string form: an undefined value as the empty string,
    [long_url], when it is truthy, in its escaped form. *)
Theorem request_response_roundtrip (nonce url xml : string) (business : obj) :
  wf business →
  let request := requestParams self nonce url business in
  let response := syntheticResponse self request in
  let data := parsedFields response in
  forallb (λ kv, survivesParse kv.2) response = true →
  parseString xml = Parsed (Some data) →
  validate self xml deliver = [Delivered None (Fields data)]
  ∧ (∀ k, k ∉ reservedNames → get response k = get request k)
  ∧ (∀ k v, (k, v) ∈ business → k ∉ reservedNames → k ≠ "long_url" →
            v ≠ VNull
            ∧ get data k = VStr (match v with VUndefined => "" | _ => toStr v end))
  ∧ (∀ v, ("long_url", v) ∈ business →
          get data "long_url"
          = VStr (if truthy v then encodeURIComponent (toStr v)
                  else match v with VUndefined => "" | _ => toStr v end)).
Proof.
  intros W request response data Hsurv Hparse.
  assert (wf request) as Wr by apply wf_requestParams.
  assert (wf response) as Wresp by (by apply wf_syntheticResponse).
  assert (∀ k, survivesParse (get response k) = true) as Hall
    by (by apply survivesParse_get).
  assert (∀ k v, k ∈ keys response → get response k = stringify v →
                 v ≠ VNull
                 ∧ get data k = VStr (match v with VUndefined => "" | _ => toStr v end))
    as Hback.
  { intros k v Hin Hk. unfold data. rewrite get_parsedFields, decide_True by done.
    specialize (Hall k). rewrite Hk in *. destruct v as [| |s|z]; cbn [stringify] in *.
    - done.
    - discriminate.
    - apply survivesParse_string in Hall. cbn [parsedValue toStr] in *. by rewrite Hall.
    - apply survivesParse_string in Hall. cbn [parsedValue toStr] in *. by rewrite Hall. }
  assert (∀ k v, (k, v) ∈ business → k ∈ keys response) as keys_business_response.
  { intros k v Hin. unfold response, syntheticResponse. cbv zeta.
    rewrite keys_set_elem, keys_extend_elem. right. left.
    unfold request, requestParams. rewrite keys_stringify.
    by apply (keys_mergedParams _ _ _ _ v). }
  split; [|split; [|split]].
  - unfold validate. rewrite Hparse.
    change (default [] (Some data)) with data.
    assert (checkResponse self data = None) as ->; [|done].
    destruct (get_syntheticResponse_own request) as (Hrc & Hres & Happ & Hmch & Hmchid & Hsub).
    assert (∀ k s, get response k = VStr s → get data k = VStr s) as Hstr.
    { intros k s Hk. unfold data.
      rewrite get_parsedFields, decide_True by (apply get_defined_keys; by rewrite Hk).
      specialize (Hall k).
      rewrite Hk in *. apply survivesParse_string in Hall.
      cbn [parsedValue toStr]. by rewrite Hall. }
    apply checkResponse_accepts; try (by apply Hstr).
    unfold data. rewrite getSign_parsedFields by done.
    apply Hstr. by apply get_syntheticResponse_sign.
  - intros k Hk. by apply get_syntheticResponse.
  - intros k v Hin Hk Hl. apply Hback.
    + by apply (keys_business_response k v).
    + unfold response. rewrite get_syntheticResponse by done. unfold request.
      apply get_requestParams; try done. intros ->. apply Hk, reserved_elem. tauto.
  - intros v Hin.
    assert (get response "long_url" = get request "long_url") as Hresp.
    { apply get_syntheticResponse. rewrite reserved_elem. intuition discriminate. }
    destruct (truthy v) eqn:Ht.
    + unfold data.
      rewrite get_parsedFields, decide_True by (by apply (keys_business_response "long_url" v)).
      pose proof (Hall "long_url") as Hs.
      rewrite Hresp in *. unfold request in *.
      rewrite (get_requestParams_long_url _ _ _ v) in * by done.
      apply survivesParse_string in Hs. cbn [parsedValue toStr]. by rewrite Hs.
    + apply Hback; [by apply (keys_business_response "long_url" v)|].
      rewrite Hresp. by apply get_requestParams_falsy_long_url.
Qed.

(** ** The two-step flow *)

Lemma validate_deliver xml :
  validate self xml deliver
  = match parseString xml with
    | ParseError msg =>
        [Delivered (Some (ErrObject {| name := "XMLParseError"; message := msg |}))
           (RawBody xml)]
    | Parsed json =>
        [Delivered (ErrObject <$> checkResponse self (default [] json))
           (Fields (default [] json))]
    | ParsedOtherRoot => [Raised "TypeError"]
    end.
Proof. unfold validate. by destruct (parseString xml). Qed.

Lemma validate_replay xml callback :
  validate self xml callback = flat_map (replay callback) (validate self xml deliver).
Proof.
  unfold validate. destruct (parseString xml); cbn; by rewrite ?app_nil_r.
Qed.

(** The runs of [signedQuery]: a local failure; an exchange that is
    rejected or answered with a document of another root; an exchange
    followed by one delivery. *)
Lemma signedQuery_runs nonce url params required :
  (∃ msg, signedQuery self nonce url params required deliver
          = [Delivered (Some (ErrText msg)) NoData] ∧ msg ≠ "")
  ∨ (∃ body, signedQuery self nonce url params required deliver = [Network url body])
  ∨ (∃ body err data, signedQuery self nonce url params required deliver
                      = [Network url body; Delivered err data]
                      ∧ (errTruthy err = false → err = None)).
Proof.
  rewrite signedQuery_unfold. destruct (missingOf _ required).
  - right. destruct (axios_get _ _) as [reason|data]; [left; eauto|].
    rewrite validate_deliver. destruct (parseString data) as [msg|json|].
    + right. eexists _, _, _. split; [reflexivity|]. discriminate.
    + right. eexists _, _, _. split; [reflexivity|].
      by destruct (checkResponse self _).
    + left. eauto.
  - left. eexists. split; [reflexivity|]. discriminate.
Qed.

(** The run with a callback, from the run with [deliver]: the callback
    takes the place of the delivery; after an exchange it runs inside the
    [try]. *)
Lemma signedQuery_callback nonce url params required callback :
  signedQuery self nonce url params required callback
  = match signedQuery self nonce url params required deliver with
    | Network u body :: rest => Network u body :: tryCatch (flat_map (replay callback) rest)
    | run => flat_map (replay callback) run
    end.
Proof.
  rewrite !signedQuery_unfold.
  destruct (missingOf _ required); [|cbn; by rewrite app_nil_r].
  destruct (axios_get _ _) as [reason|data]; [done|]. f_equal.
  rewrite validate_replay, validate_deliver.
  destruct (parseString data); cbn [tryCatch]; try done.
Qed.

(** X2. Every run of [signedQuery] delivers at most one outcome to the
    caller. It delivers none exactly when no required field is missing
    and the network exchange either is rejected or is answered with a
    document whose root is not [xml]: the exception that the rejection or
    the validator raises is swallowed. *)
Theorem signedQuery_deliveries (nonce url : string) (params : obj)
    (required : list string) :
  let run := signedQuery self nonce url params required deliver in
  let request := requestParams self nonce url params in
  (deliveries run = 1 ∨ deliveries run = 0)
  ∧ (deliveries run = 0
     ↔ missingOf request required = []
       ∧ ((∃ reason, axios_get url (buildXml request) = Rejected reason)
          ∨ (∃ data, axios_get url (buildXml request) = Resolved data
                     ∧ parseString data = ParsedOtherRoot))).
Proof.
  intros run request. subst run request. rewrite signedQuery_unfold.
  destruct (missingOf _ required) as [|e rest].
  - destruct (axios_get _ _) as [reason|data] eqn:Hx.
    + split; [by right|]. split; [|done]. intros _. split; [done|]. left. eauto.
    + rewrite validate_deliver. destruct (parseString data) as [msg|json|] eqn:Hp.
      * split; [by left|]. split; [done|].
        intros [_ [[? [=]]|(d & [= <-] & Hd)]]. congruence.
      * split; [by left|]. split; [done|].
        intros [_ [[? [=]]|(d & [= <-] & Hd)]]. congruence.
      * split; [by right|]. split; [|done]. intros _. split; [done|]. right. eauto.
  - split; [by left|]. split; [done|]. by intros [[=] _].
Qed.

Lemma brandWCPayContinuation_error this default_params order callback err data :
  errTruthy err = true →
  brandWCPayContinuation this default_params order callback err data = callback err NoData.
Proof. intros He. unfold brandWCPayContinuation. by rewrite He. Qed.

Lemma brandWCPayContinuation_raises default_params order callback err data :
  errTruthy err = false →
  brandWCPayContinuation None default_params order callback err data
  = [SecondStep; Raised "TypeError"].
Proof. intros He. unfold brandWCPayContinuation. by rewrite He. Qed.

(** The flow, from the run of its first step with [deliver]. *)
Lemma getBrandWCPayRequestParams_runs timeStamp nonceStr nonce1 nonce2 order :
  let step1 :=
    unifiedOrder self nonce2 (extendWithDefault self nonce1 order ["notify_url"]) deliver in
  let flow := getBrandWCPayRequestParams self timeStamp nonceStr nonce1 nonce2 order deliver in
  (∃ msg, msg ≠ ""
          ∧ step1 = [Delivered (Some (ErrText msg)) NoData]
          ∧ flow = [Delivered (Some (ErrText msg)) NoData])
  ∨ (∃ url body, step1 = [Network url body] ∧ flow = [Network url body])
  ∨ (∃ url body err data, step1 = [Network url body; Delivered err data]
                          ∧ errTruthy err = true
                          ∧ flow = [Network url body; Delivered err NoData])
  ∨ (∃ url body data, step1 = [Network url body; Delivered None data]
                      ∧ flow = [Network url body; SecondStep]).
Proof.
  intros step1 flow. subst step1 flow.
  unfold getBrandWCPayRequestParams, unifiedOrder. cbv zeta.
  set (required := if looseEqStr _ _ then _ else _).
  set (params := set _ "notify_url" _).
  rewrite (signedQuery_callback _ _ _ _ (brandWCPayContinuation _ _ _ _)).
  destruct (signedQuery_runs nonce2 (UNIFIED_ORDER (urls self)) params required)
    as [(msg & -> & Hmsg)|[(body & ->)|(body & err & data & -> & Herr)]].
  - left. exists msg. split; [done|]. split; [done|]. cbn [flat_map replay]. rewrite app_nil_r.
    apply brandWCPayContinuation_error. cbn. by apply negb_true_iff, String.eqb_neq.
  - right. left. by eexists _, _.
  - right. right. cbn [flat_map replay]. rewrite app_nil_r.
    destruct (errTruthy err) eqn:He.
    + left. eexists _, _, err, data. split; [done|]. split; [done|].
      by rewrite brandWCPayContinuation_error.
    + right. rewrite (Herr eq_refl) in *. eexists _, _, data. split; [done|].
      by rewrite brandWCPayContinuation_raises.
Qed.

(** X1. The two-step flow against its first step run alone (the order
    creation, [unifiedOrder], with the caller's callback): an error the
    first step reports reaches the caller of the flow unchanged and the
    second step is not started; a rejected network exchange leaves the
    flow, like the first step, without any delivery; the second step is
    started only after the first step delivered no error. *)
Theorem two_step_flow (timeStamp nonceStr nonce1 nonce2 : string) (order : obj) :
  let step1 := unifiedOrder self nonce2 (extendWithDefault self nonce1 order ["notify_url"]) deliver in
  let flow := getBrandWCPayRequestParams self timeStamp nonceStr nonce1 nonce2 order deliver in
  (∀ err data, errTruthy err = true →
     (step1 = [Delivered err data] → flow = [Delivered err NoData])
     ∧ (∀ url body, step1 = [Network url body; Delivered err data] →
                    flow = [Network url body; Delivered err NoData]))
  ∧ (∀ url body, step1 = [Network url body] → flow = [Network url body])
  ∧ (SecondStep ∈ flow → ∃ url body data, step1 = [Network url body; Delivered None data]).
Proof.
  intros step1 flow.
  destruct (getBrandWCPayRequestParams_runs timeStamp nonceStr nonce1 nonce2 order)
    as [(msg & Hmsg & H1 & H2)|[(u & b & H1 & H2)|[(u & b & e & d & H1 & He & H2)
                                                   |(u & b & d & H1 & H2)]]];
    fold step1 in H1; fold flow in H2; rewrite H1, H2.
  - split; [|split].
    + intros err data _. split; [by intros [= <- <-]|]. by intros ? ? [=].
    + by intros ? ? [=].
    + intros Hin%list_elem_of_singleton. discriminate.
  - split; [|split].
    + intros err data _. split; [by intros [=]|]. by intros ? ? [=].
    + by intros ? ? [= <- <-].
    + intros Hin%list_elem_of_singleton. discriminate.
  - split; [|split].
    + intros err data _. split; [by intros [=]|]. by intros ? ? [= <- <- <- <-].
    + by intros ? ? [=].
    + intros Hin. apply elem_of_cons in Hin as [?|Hin%list_elem_of_singleton];
        discriminate.
  - split; [|split].
    + intros err data He. split; [by intros [=]|].
      intros ? ? [= <- <- <- <-]. discriminate.
    + by intros ? ? [=].
    + intros _. eauto.
Qed.

(** X22. The flow never delivers the payment parameters. When the order
    creation delivers its response without an error the second step is
    started and raises before it delivers anything: its callback is a
    plain function, run without a receiver, and [this.getSign] raises
    inside the [try] of [signedQuery], whose empty handler swallows the
    exception. Whatever the flow delivers is an error of the order
    creation, without data. *)
Theorem two_step_success_not_delivered (timeStamp nonceStr nonce1 nonce2 : string)
    (order : obj) :
  let step1 := unifiedOrder self nonce2 (extendWithDefault self nonce1 order ["notify_url"]) deliver in
  let flow := getBrandWCPayRequestParams self timeStamp nonceStr nonce1 nonce2 order deliver in
  (∀ url body err data, errTruthy err = false →
     step1 = [Network url body; Delivered err data] →
     flow = [Network url body; SecondStep])
  ∧ (∀ err data, Delivered err data ∈ flow →
       errTruthy err = true ∧ data = NoData ∧ ∃ data1, Delivered err data1 ∈ step1)
  ∧ (deliveries flow ≤ deliveries step1)%nat.
Proof.
  intros step1 flow.
  destruct (getBrandWCPayRequestParams_runs timeStamp nonceStr nonce1 nonce2 order)
    as [(msg & Hmsg & H1 & H2)|[(u & b & H1 & H2)|[(u & b & e & d & H1 & He & H2)
                                                   |(u & b & d & H1 & H2)]]];
    fold step1 in H1; fold flow in H2; rewrite H1, H2.
  - split; [by intros ? ? ? ? _ [=]|]. split; [|done].
    intros err data [= -> ->]%list_elem_of_singleton.
    split; [cbn; by apply negb_true_iff, String.eqb_neq|]. split; [done|].
    eexists. left.
  - split; [by intros ? ? ? ? _ [=]|]. split; [|done].
    intros err data [=]%list_elem_of_singleton.
  - split; [|split; [|done]].
    + intros ? ? ? ? Hf [= <- <- <- <-]. congruence.
    + intros err data Hin.
      apply elem_of_cons in Hin as [[=]|[= -> ->]%list_elem_of_singleton].
      split; [done|]. split; [done|]. eexists. right. left.
  - split; [|split].
    + by intros ? ? ? ? _ [= <- <- <- <-].
    + intros err data Hin.
      apply elem_of_cons in Hin as [[=]|[=]%list_elem_of_singleton].
    + cbn. lia.
Qed.

End Properties.

(** ** Further facts: strings, nonces, rendering *)

Lemma string_app_cons c (s t : string) : String c s +:+ t = String c (s +:+ t).
Proof. reflexivity. Qed.

Lemma string_app_nil_l (t : string) : "" +:+ t = t.
Proof. reflexivity. Qed.

Lemma string_app_assoc (s t u : string) : (s +:+ t) +:+ u = s +:+ (t +:+ u).
Proof.
  induction s as [|c s IH]; [done|].
  by rewrite !string_app_cons, IH.
Qed.

Lemma string_app_length (s t : string) :
  String.length (s +:+ t) = String.length s + String.length t.
Proof.
  induction s as [|c s IH]; [done|].
  rewrite string_app_cons. cbn [String.length]. by rewrite IH.
Qed.

Lemma string_app_chars (s t : string) :
  list_ascii_of_string (s +:+ t) = list_ascii_of_string s ++ list_ascii_of_string t.
Proof.
  induction s as [|c s IH]; [done|].
  rewrite string_app_cons. cbn [list_ascii_of_string]. by rewrite IH.
Qed.

Lemma string_app_nonempty (s t : string) : s ≠ "" → s +:+ t ≠ "".
Proof. destruct s; [done|]. by rewrite string_app_cons. Qed.

Lemma upperAscii_idemp c : upperAscii (upperAscii c) = upperAscii c.
Proof. destruct c as [[] [] [] [] [] [] [] []]; reflexivity. Qed.

Lemma toUpperCase_idemp s : toUpperCase (toUpperCase s) = toUpperCase s.
Proof.
  induction s as [|c s IH]; [done|].
  cbn [toUpperCase]. by rewrite upperAscii_idemp, IH.
Qed.

Lemma string_get_in (s : string) i c :
  String.get i s = Some c → c ∈ list_ascii_of_string s.
Proof.
  revert i. induction s as [|c0 s IH]; intros i; [done|].
  destruct i as [|i]; cbn [String.get list_ascii_of_string].
  - intros [= ->]. left.
  - intros H. right. eauto.
Qed.

Lemma string_get_lt (s : string) i :
  i < String.length s → ∃ c, String.get i s = Some c.
Proof.
  revert i. induction s as [|c0 s IH]; intros i; cbn [String.length String.get].
  - lia.
  - destruct i as [|i]; [eauto|]. intros ?. apply IH. lia.
Qed.

Lemma charAt_in_range (s : string) i :
  i < String.length s →
  ∃ c, charAt s i = String c "" ∧ c ∈ list_ascii_of_string s.
Proof.
  intros Hi. destruct (string_get_lt s i Hi) as [c Hc].
  exists c. unfold charAt. rewrite Hc. eauto using string_get_in.
Qed.

Lemma charAt_out_of_range (s : string) i :
  (String.length s ≤ i)%nat → charAt s i = "".
Proof.
  unfold charAt. revert i. induction s as [|c0 s IH]; intros i; cbn [String.length String.get].
  - by destruct i.
  - destruct i as [|i]; [lia|]. intros ?. apply IH. lia.
Qed.

Lemma nonce_loop (draws : nat → nat) (acc : string) (start n : nat) :
  (∀ i, draws i < 62) →
  String.length
    (foldl (λ noceStr i, noceStr +:+ charAt nonceChars (draws i)) acc (seq start n))
  = String.length acc + n
  ∧ (∀ c, c ∈ list_ascii_of_string
                (foldl (λ noceStr i, noceStr +:+ charAt nonceChars (draws i)) acc
                   (seq start n)) →
          c ∈ list_ascii_of_string acc ∨ c ∈ list_ascii_of_string nonceChars).
Proof.
  intros Hd. revert acc start. induction n as [|n IH]; intros acc start.
  - cbn. split; [lia|auto].
  - cbn [seq foldl].
    destruct (charAt_in_range nonceChars (draws start) (Hd start)) as (c0 & Hc0 & Hin0).
    rewrite Hc0. destruct (IH (acc +:+ String c0 "") (S start)) as [Hlen Hch].
    split.
    + rewrite Hlen, string_app_length. cbn. lia.
    + intros c Hc. destruct (Hch c Hc) as [Hacc|?]; [|by right].
      rewrite string_app_chars in Hacc. apply elem_of_app in Hacc as [?|Hone]; [by left|].
      right. cbn in Hone. apply list_elem_of_singleton in Hone. by subst.
Qed.

(** X4. A nonce has the length asked for, 32 when no length or the length
    0 is given, and is made of letters and digits only. *)
Theorem generateNonceStr_shape (draws : nat → nat) (len : option nat) :
  (∀ i, draws i < 62) →
  String.length (generateNonceStr draws len)
  = match len with Some (S n) => S n | Some 0 | None => 32 end
  ∧ (∀ c, c ∈ list_ascii_of_string (generateNonceStr draws len) →
          c ∈ list_ascii_of_string nonceChars).
Proof.
  intros Hd. unfold generateNonceStr. cbv zeta.
  destruct (nonce_loop draws "" 0 (match len with Some (S n) => S n | _ => 32 end) Hd)
    as [Hlen Hch].
  split; [exact Hlen|].
  intros c Hc. destruct (Hch c Hc) as [Hnil|?]; [|done].
  cbn in Hnil. by apply elem_of_nil in Hnil.
Qed.

Lemma get_defaults_fold (defaults eo : obj) (ks : list string) k :
  get (foldl (λ eo k, if truthy (get defaults k) then set eo k (get defaults k) else eo)
         eo ks) k
  = if decide (k ∈ ks ∧ truthy (get defaults k) = true) then get defaults k
    else get eo k.
Proof.
  revert eo. induction ks as [|k0 ks IH]; intros eo.
  - cbn [foldl]. rewrite decide_False; [done|]. intros [H _]. by apply elem_of_nil in H.
  - cbn [foldl]. rewrite IH. destruct (decide (k ∈ ks ∧ _)) as [[Hin Ht]|Hn].
    + rewrite decide_True; [done|]. split; [by right|done].
    + destruct (decide (k0 = k)) as [->|Hne].
      * destruct (truthy (get defaults k)) eqn:Ht.
        -- rewrite get_set, decide_True by done.
           rewrite decide_True; [done|]. split; [left|done].
        -- rewrite decide_False; [done|]. intros [_ ?]. done.
      * assert (get (if truthy (get defaults k0) then set eo k0 (get defaults k0) else eo) k
                = get eo k) as ->.
        { destruct (truthy (get defaults k0)); [|done].
          by rewrite get_set, decide_False. }
        rewrite decide_False; [done|]. intros [Hin Ht]. apply Hn. split; [|done].
        apply elem_of_cons in Hin as [?|?]; [congruence|done].
Qed.

Lemma keys_defaults_fold (defaults eo : obj) (ks : list string) k :
  k ∈ keys (foldl (λ eo k, if truthy (get defaults k) then set eo k (get defaults k) else eo)
              eo ks)
  ↔ k ∈ keys eo ∨ (k ∈ ks ∧ truthy (get defaults k) = true).
Proof.
  revert eo. induction ks as [|k0 ks IH]; intros eo; cbn [foldl].
  - rewrite elem_of_nil. tauto.
  - rewrite IH, elem_of_cons. destruct (truthy (get defaults k0)) eqn:Ht.
    + rewrite keys_set_elem. split; [|intros [?|[[->|?] ?]]; tauto].
      intros [[->|?]|[? ?]]; tauto.
    + split; [tauto|]. intros [?|[[->|?] ?]]; [tauto|congruence|tauto].
Qed.

Lemma truthy_stringify_blank v : truthy (stringify v) = negb (blank v).
Proof.
  destruct v as [| |s|z]; try reflexivity.
  cbn [stringify truthy blank negb]. apply negb_true_iff, String.eqb_neq.
  apply toStr_num_nonempty.
Qed.

Lemma filter_bool_ext {A} (P : A → Prop) `{∀ x, Decision (P x)} (f : A → bool) (l : list A) :
  (∀ x, x ∈ l → P x ↔ f x = true) → filter P l = List.filter f l.
Proof.
  induction l as [|a l IH]; intros Hext; [done|].
  rewrite filter_cons. cbn [List.filter].
  rewrite IH by (intros x Hx; apply Hext; by right).
  pose proof (Hext a (list_elem_of_here _ _)) as Ha.
  destruct (decide (P a)) as [Hp|Hp]; destruct (f a); try done.
  - apply Ha in Hp. discriminate.
  - exfalso. by apply Hp, Ha.
Qed.

Lemma requiredDataOf_alternatives (trade_type : value) (entry alt : string) :
  entry ∈ requiredDataOf trade_type → alt ∈ split "|" entry →
  alt ∈ [ "body"; "out_trade_no"; "total_fee"; "spbill_create_ip"; "trade_type";
          "openid"; "sub_openid"; "product_id" ].
Proof.
  unfold requiredDataOf.
  destruct (looseEqStr trade_type "JSAPI"); [|destruct (looseEqStr trade_type "NATIVE")];
    rewrite elem_of_app, !elem_of_cons, !elem_of_nil;
    intros H; decompose [or] H; try done; subst entry; cbn [split Ascii.eqb Bool.eqb];
    rewrite !elem_of_cons, !elem_of_nil; intros Ha; decompose [or] Ha; try done;
    subst alt; tauto.
Qed.

Lemma get_app_cons (pre suf : obj) k v :
  k ∉ keys pre → get (pre ++ (k, v) :: suf) k = v.
Proof.
  induction pre as [|[k0 v0] pre IH]; intros Hk.
  - by rewrite app_nil_l, get_cons, decide_True.
  - unfold keys in Hk. rewrite fmap_cons, not_elem_of_cons in Hk. destruct Hk as [Hne Hk].
    rewrite <- app_comm_cons, get_cons, decide_False by (cbn in Hne; congruence).
    by apply IH.
Qed.

Lemma set_app_cons (pre suf : obj) k v v' :
  k ∉ keys pre → set (pre ++ (k, v) :: suf) k v' = pre ++ (k, v') :: suf.
Proof.
  induction pre as [|[k0 v0] pre IH]; intros Hk.
  - rewrite !app_nil_l. cbn [set]. by rewrite decide_True.
  - unfold keys in Hk. rewrite fmap_cons, not_elem_of_cons in Hk. destruct Hk as [Hne Hk].
    rewrite <- !app_comm_cons. cbn [set].
    rewrite decide_False by (cbn in Hne; congruence). f_equal. by apply IH.
Qed.

Lemma set_same (o : obj) k v : lookup_field o k = Some v → set o k v = o.
Proof.
  induction o as [|[k0 v0] o IH]; [done|]. cbn [lookup_field set].
  destruct (decide (k0 = k)); [by intros [= ->]|]. intros H. f_equal. by apply IH.
Qed.

(** The loop of [signedQuery] over the keys of the parameters turns every
    value into a string, in place. *)
Lemma stringify_loop_from (pre suf : obj) :
  NoDup (keys pre ++ keys suf) →
  foldl (λ (o : obj) key, match get o key with
                          | VUndefined | VNull => o
                          | v => set o key (VStr (toStr v))
                          end)
        (pre ++ suf) (keys suf)
  = pre ++ map (λ kv, (kv.1, stringify kv.2)) suf.
Proof.
  revert pre. induction suf as [|[k v] suf IH]; intros pre Hnd; [done|].
  unfold keys at 1. rewrite fmap_cons. cbn [foldl fst]. fold (keys suf).
  assert (k ∉ keys pre) as Hk.
  { apply NoDup_app in Hnd as (_ & Hd & _). intros Hin. apply (Hd _ Hin). left. }
  rewrite get_app_cons by done.
  assert (foldl (λ (o : obj) key, match get o key with
                                  | VUndefined | VNull => o
                                  | v => set o key (VStr (toStr v))
                                  end)
                (pre ++ (k, stringify v) :: suf) (keys suf)
          = pre ++ (k, stringify v) :: map (λ kv, (kv.1, stringify kv.2)) suf) as Hrest.
  { replace (pre ++ (k, stringify v) :: suf) with ((pre ++ [(k, stringify v)]) ++ suf)
      by (by rewrite <- app_assoc).
    rewrite IH; [by rewrite <- app_assoc|].
    unfold keys at 1. rewrite fmap_app, <- app_assoc. cbn [fmap list_fmap fst app].
    unfold keys in Hnd. rewrite fmap_cons in Hnd. exact Hnd. }
  destruct v; cbn [stringify] in Hrest; rewrite ?set_app_cons by done; exact Hrest.
Qed.

Lemma stringify_loop (o : obj) :
  wf o →
  foldl (λ (o : obj) key, match get o key with
                          | VUndefined | VNull => o
                          | v => set o key (VStr (toStr v))
                          end)
        o (keys o)
  = map (λ kv, (kv.1, stringify kv.2)) o.
Proof. intros W. by apply (stringify_loop_from [] o). Qed.

(** Heaps: reading through a reference, allocation, update in place. *)
Lemma deref_lookup (h : heap) l o : h !! l = Some o → deref h l = o.
Proof. unfold deref. by intros ->. Qed.

Lemma fresh_lookup (h : heap) : h !! fresh (dom h) = None.
Proof. apply not_elem_of_dom_1, is_fresh. Qed.

Lemma fresh_ne (h : heap) l o : h !! l = Some o → l ≠ fresh (dom h).
Proof. intros Hl ->. rewrite fresh_lookup in Hl. discriminate. Qed.

Lemma alter_lookup (f : obj → obj) (h : heap) l o :
  h !! l = Some o → alter f l h = <[l := f o]> h.
Proof. intros Hl. by rewrite <- (insert_id h l o Hl) at 1; rewrite alter_insert_eq. Qed.

Lemma defaults_loop (h : heap) ld le (defaults eo : obj) (ks : list string) :
  ld ≠ le → h !! ld = Some defaults → h !! le = Some eo →
  foldl (λ h k, if truthy (get (deref h ld) k)
                then setRef h le k (get (deref h ld) k)
                else h)
        h ks
  = <[le := foldl (λ eo k, if truthy (get defaults k) then set eo k (get defaults k) else eo)
              eo ks]> h.
Proof.
  intros Hne. revert h eo. induction ks as [|k ks IH]; intros h eo Hd He; cbn [foldl].
  - by rewrite insert_id.
  - rewrite (deref_lookup _ _ _ Hd). destruct (truthy (get defaults k)).
    + unfold setRef. rewrite (alter_lookup _ _ _ _ He).
      rewrite (IH _ (set eo k (get defaults k))).
      * by rewrite insert_insert_eq.
      * by rewrite lookup_insert_ne.
      * by rewrite lookup_insert_eq.
    + by apply IH.
Qed.

Lemma stringify_heap_loop (h : heap) l (o : obj) (ks : list string) :
  h !! l = Some o →
  foldl (λ h key, match get (deref h l) key with
                  | VUndefined | VNull => h
                  | v => setRef h l key (VStr (toStr v))
                  end)
        h ks
  = <[l := foldl (λ (o : obj) key, match get o key with
                                   | VUndefined | VNull => o
                                   | v => set o key (VStr (toStr v))
                                   end)
             o ks]> h.
Proof.
  revert h o. induction ks as [|k ks IH]; intros h o Hl; cbn [foldl].
  - by rewrite insert_id.
  - rewrite (deref_lookup _ _ _ Hl).
    assert (∀ v', <[l := foldl (λ (o : obj) key, match get o key with
                                                 | VUndefined | VNull => o
                                                 | v => set o key (VStr (toStr v))
                                                 end) (set o k v') ks]> h
                  = foldl (λ h key, match get (deref h l) key with
                                    | VUndefined | VNull => h
                                    | v => setRef h l key (VStr (toStr v))
                                    end) (setRef h l k v') ks) as Hstep.
    { intros v'. unfold setRef. rewrite (alter_lookup _ _ _ _ Hl).
      rewrite (IH _ (set o k v')) by (by rewrite lookup_insert_eq).
      by rewrite insert_insert_eq. }
    destruct (get o k); auto.
Qed.

(** ** Requests, responses and signatures: further properties *)

Section Coverage.

Context {libs : Libraries} (self : WechatPayment).

Lemma extendWithDefault_get (nonce : string) (o : obj) (ks : list string) (k : string) :
  wf o →
  get (extendWithDefault self nonce o ks) k
  = if decide (k ∈ keys o) then get o k
    else if decide (k ∈ ks ∧ truthy (get (defaultsOf self nonce) k) = true)
         then get (defaultsOf self nonce) k
         else VUndefined.
Proof.
  intros W. unfold extendWithDefault. cbv zeta. rewrite get_extend by done.
  destruct (decide (k ∈ keys o)); [done|].
  apply (get_defaults_fold (defaultsOf self nonce) [] ks k).
Qed.

(** X5. [extendWithDefault] never overrides a field of the caller, be its
    value undefined or empty; among the other fields it sets exactly the
    requested ones whose configured default is not empty; the fields of
    the caller that are not requested are all kept. *)
Theorem extendWithDefault_lookup (nonce : string) (o : obj) (ks : list string) :
  wf o →
  (∀ k v, (k, v) ∈ o → get (extendWithDefault self nonce o ks) k = v)
  ∧ (∀ k, k ∉ keys o →
          get (extendWithDefault self nonce o ks) k
          = if decide (k ∈ ks ∧ truthy (get (defaultsOf self nonce) k) = true)
            then get (defaultsOf self nonce) k
            else VUndefined)
  ∧ (∀ k, k ∉ keys o → truthy (get (extendWithDefault self nonce o ks) k) = true →
          k ∈ ks ∧ k ∈ keys (defaultsOf self nonce)).
Proof.
  intros W. split; [|split].
  - intros k v Hin. rewrite extendWithDefault_get by done.
    rewrite decide_True by (by apply (list_elem_of_fmap_2 fst) in Hin).
    unfold get. by rewrite (elem_of_lookup_field _ _ _ W Hin).
  - intros k Hk. rewrite extendWithDefault_get by done. by rewrite decide_False.
  - intros k Hk. rewrite extendWithDefault_get by done. rewrite decide_False by done.
    destruct (decide _) as [[Hin Ht]|]; [|done]. intros _. split; [done|].
    apply get_defined_keys. intros Hu. by rewrite Hu in Ht.
Qed.

Lemma mergedParams_unfold nonce url params :
  mergedParams self nonce url params
  = let merged := extendWithDefault self nonce params (defaultKeys self url) in
    let signed := extend [("sign", VStr (getSign self merged None))] merged in
    if truthy (get signed "long_url") then
      set signed "long_url" (VStr (encodeURIComponent (toStr (get signed "long_url"))))
    else signed.
Proof.
  unfold mergedParams, defaultKeys.
  destruct (String.eqb url (REDPACK_SEND (urls self))); [done|].
  by destruct (String.eqb url (TRANSFERS (urls self))).
Qed.

Lemma defaultKeys_identity url :
  url ∈ identityEndpoints (urls self) →
  defaultKeys self url = ["appid"; "mch_id"; "sub_mch_id"; "nonce_str"].
Proof.
  unfold identityEndpoints, defaultKeys, urls. rewrite !elem_of_cons, elem_of_nil.
  destruct (mode self); intros H;
    repeat (destruct H as [->|H]; [reflexivity|]); done.
Qed.

Lemma defaultKeys_redpack : defaultKeys self (REDPACK_SEND (urls self)) = ["mch_id"; "nonce_str"].
Proof. unfold defaultKeys. by rewrite String.eqb_refl. Qed.

Lemma defaultKeys_transfers : defaultKeys self (TRANSFERS (urls self)) = ["nonce_str"].
Proof. unfold defaultKeys, urls. by destruct (mode self). Qed.

(** The fields of the request other than [sign] and [long_url] are those
    of [extendWithDefault], turned into strings. *)
Lemma get_requestParams_merged nonce url params k :
  wf params → k ≠ "sign" → k ≠ "long_url" →
  get (requestParams self nonce url params) k
  = stringify (get (extendWithDefault self nonce params (defaultKeys self url)) k).
Proof.
  intros W Hs Hl. unfold requestParams. rewrite get_stringify, mergedParams_unfold.
  cbv zeta. f_equal.
  destruct (truthy _); rewrite ?get_set, ?decide_False by congruence;
    apply get_extend_sign; auto using wf_extendWithDefault.
Qed.

(** X6. Which defaults a request gets depends on the endpoint only: when
    the caller leaves the field out, a request to the red-packet endpoint
    gets the merchant id and a nonce but no app id and no sub-merchant
    id, a request to the transfer endpoint gets a nonce only, and a
    request to any other endpoint of the client gets the four of them; an
    empty configured value is never sent. *)
Theorem request_defaults_by_endpoint (nonce url : string) (params : obj) (k : string) :
  wf params → k ∉ keys params →
  k ∈ ["appid"; "mch_id"; "sub_mch_id"; "nonce_str"] →
  let default := get (defaultsOf self nonce) k in
  let sent := if truthy default then default else VUndefined in
  (url ∈ identityEndpoints (urls self) →
   get (requestParams self nonce url params) k = sent)
  ∧ get (requestParams self nonce (REDPACK_SEND (urls self)) params) k
    = (if decide (k = "mch_id" ∨ k = "nonce_str") then sent else VUndefined)
  ∧ get (requestParams self nonce (TRANSFERS (urls self)) params) k
    = (if decide (k = "nonce_str") then sent else VUndefined).
Proof.
  intros W Hk Hin default sent.
  assert (k ≠ "sign" ∧ k ≠ "long_url") as [Hs Hl].
  { rewrite !elem_of_cons, elem_of_nil in Hin. split; intros ->; intuition discriminate. }
  assert (stringify sent = sent) as Hsent.
  { assert (∃ d, default = VStr d) as [d Hd].
    { subst default. rewrite !elem_of_cons, elem_of_nil in Hin.
      destruct Hin as [->|[->|[->|[->|[]]]]]; eexists; reflexivity. }
    subst sent. rewrite Hd. by destruct (truthy (VStr d)). }
  assert (∀ url', get (requestParams self nonce url' params) k
                  = if decide (k ∈ defaultKeys self url') then sent else VUndefined) as Hget.
  { intros url'. rewrite get_requestParams_merged, extendWithDefault_get by done.
    rewrite decide_False by done. fold default.
    destruct (decide (k ∈ defaultKeys self url')) as [Hd|Hd];
      destruct (truthy default) eqn:Ht.
    - rewrite decide_True by done. exact Hsent.
    - rewrite decide_False by (intros [_ ?]; congruence). reflexivity.
    - rewrite decide_False by tauto. done.
    - rewrite decide_False by tauto. done. }
  split; [|split].
  - intros Hurl. rewrite Hget, (defaultKeys_identity _ Hurl). by rewrite decide_True.
  - rewrite Hget, defaultKeys_redpack.
    destruct (decide (k = "mch_id" ∨ k = "nonce_str")) as [Hor|Hor].
    + rewrite decide_True; [done|]. rewrite !elem_of_cons. tauto.
    + rewrite decide_False; [done|]. rewrite !elem_of_cons, elem_of_nil. tauto.
  - rewrite Hget, defaultKeys_transfers.
    destruct (decide (k = "nonce_str")) as [->|Hne].
    + rewrite decide_True; [done|]. left.
    + rewrite decide_False; [done|]. rewrite list_elem_of_singleton. done.
Qed.

Lemma defaultKeys_elem url k :
  k ∈ defaultKeys self url → k ∈ ["appid"; "mch_id"; "sub_mch_id"; "nonce_str"].
Proof.
  unfold defaultKeys.
  destruct (String.eqb url (REDPACK_SEND (urls self)));
    [|destruct (String.eqb url (TRANSFERS (urls self)))];
    rewrite !elem_of_cons, !elem_of_nil; tauto.
Qed.

(** Outside the four defaults the merged parameters are the caller's. *)
Lemma get_merged_caller nonce url params k :
  wf params → k ∉ ["appid"; "mch_id"; "sub_mch_id"; "nonce_str"] →
  get (extendWithDefault self nonce params (defaultKeys self url)) k = get params k.
Proof.
  intros W Hk. rewrite extendWithDefault_get by done.
  destruct (decide (k ∈ keys params)) as [|Hn]; [done|].
  rewrite decide_False by (intros [H _]; by apply defaultKeys_elem in H).
  symmetry. by apply get_absent, lookup_field_None.
Qed.

Lemma keys_merged_elem nonce url params k :
  k ∈ keys (extendWithDefault self nonce params (defaultKeys self url)) →
  k ∈ keys params ∨ k ∈ ["appid"; "mch_id"; "sub_mch_id"; "nonce_str"].
Proof.
  unfold extendWithDefault. cbv zeta. rewrite keys_extend_elem, keys_defaults_fold.
  intros [[H|[H _]]|H]; [by apply elem_of_nil in H| |by left].
  right. by apply defaultKeys_elem in H.
Qed.

(** The [sign] field of the merged parameters: the caller's when the
    caller has one, the computed signature otherwise. *)
Lemma get_mergedParams_sign nonce url params :
  wf params →
  get (mergedParams self nonce url params) "sign"
  = if decide ("sign" ∈ keys params) then get params "sign"
    else VStr (getSign self (extendWithDefault self nonce params (defaultKeys self url)) None).
Proof.
  intros W. rewrite mergedParams_unfold. cbv zeta.
  assert (∀ o : obj, get (if truthy (get o "long_url")
                          then set o "long_url"
                                 (VStr (encodeURIComponent (toStr (get o "long_url"))))
                          else o) "sign" = get o "sign") as ->.
  { intros o. destruct (truthy _); [|done]. by rewrite get_set, decide_False. }
  rewrite get_extend by apply wf_extendWithDefault.
  destruct (decide ("sign" ∈ keys params)) as [Hin|Hn].
  - rewrite decide_True.
    + by apply get_extendWithDefault.
    + unfold extendWithDefault. cbv zeta. rewrite keys_extend_elem. by right.
  - rewrite decide_False; [done|].
    intros [H|H]%keys_merged_elem; [done|].
    rewrite !elem_of_cons, elem_of_nil in H. intuition discriminate.
Qed.

(** X7. A request whose caller sets no [sign] field carries the signature
    of its own fields as they are sent, so that the receiver who
    recomputes the signature over the request finds it equal; the one
    exception is [long_url], which is signed before it is escaped: the
    signature is that of the request with the caller's [long_url] put
    back. *)
Theorem request_signature_verifies (nonce url : string) (params : obj) :
  wf params → "sign" ∉ keys params →
  let request := requestParams self nonce url params in
  let signedFields :=
    if truthy (get params "long_url")
    then set request "long_url" (get params "long_url")
    else request in
  get request "sign" = VStr (getSign self signedFields None).
Proof.
  intros W Hs request signedFields.
  pose (merged := extendWithDefault self nonce params (defaultKeys self url)).
  assert (wf merged) as Wm by apply wf_extendWithDefault.
  assert (get merged "long_url" = get params "long_url") as Hlong.
  { apply get_merged_caller; [done|].
    rewrite !elem_of_cons, elem_of_nil. intuition discriminate. }
  assert (get request "sign" = VStr (getSign self merged None)) as ->.
  { unfold request, requestParams. rewrite get_stringify, get_mergedParams_sign by done.
    by rewrite decide_False. }
  f_equal. rewrite !getSign_canonical. f_equal.
  assert (∀ k, k ≠ "sign" → k ≠ "long_url" → get request k = stringify (get merged k)) as Hreq.
  { intros k ? ?. by apply get_requestParams_merged. }
  assert (wf request) as Wr by apply wf_requestParams.
  apply canonical_ext_render; [done| |].
  { unfold signedFields. destruct (truthy _); auto using wf_set. }
  intros k Hk. unfold signedFields.
  destruct (truthy (get params "long_url")) eqn:Ht.
  - rewrite get_set. destruct (decide ("long_url" = k)) as [<-|Hn].
    + by rewrite Hlong.
    + rewrite Hreq by done. by rewrite stringify_discarded, toStr_stringify.
  - destruct (decide (k = "long_url")) as [->|Hn].
    + unfold request, requestParams. rewrite get_stringify, mergedParams_unfold. cbv zeta.
      rewrite get_extend_sign by done. fold merged. rewrite Hlong, Ht.
      rewrite get_extend_sign by done. fold merged.
      by rewrite stringify_discarded, toStr_stringify, Hlong.
    + rewrite Hreq by done. by rewrite stringify_discarded, toStr_stringify.
Qed.

(** X8. A [sign] field of the caller, whatever its value, takes the place
    of the computed signature: the request carries the caller's value (as
    a string), and an undefined or null one leaves the request unsigned. *)
Theorem caller_sign_overrides (nonce url : string) (params : obj) (v : value) :
  wf params → ("sign", v) ∈ params →
  get (requestParams self nonce url params) "sign" = stringify v
  ∧ (v = VUndefined ∨ v = VNull →
     truthy (get (requestParams self nonce url params) "sign") = false).
Proof.
  intros W Hin.
  assert (get (requestParams self nonce url params) "sign" = stringify v) as Heq.
  { unfold requestParams. rewrite get_stringify, get_mergedParams_sign by done.
    rewrite decide_True by (by apply (list_elem_of_fmap_2 fst) in Hin).
    unfold get. by rewrite (elem_of_lookup_field _ _ _ W Hin). }
  split; [done|]. rewrite Heq. by intros [->| ->].
Qed.

Lemma getSign_upper pkg signType :
  toUpperCase (getSign self pkg signType) = getSign self pkg signType.
Proof. unfold getSign. cbv zeta. apply toUpperCase_idemp. Qed.

Lemma checkResponse_name data e :
  checkResponse self data = Some e → name e ∈ validationErrors.
Proof.
  unfold checkResponse.
  repeat match goal with |- context [if ?b then _ else _] => destruct b end;
    intros [= <-]; apply (bool_decide_unpack _); vm_compute; exact I.
Qed.

(** X9. The validator does not require a response to be signed: when the
    [sign] field is absent, undefined, null or empty the signature is not
    computed, the outcome is that of the six other checks, and
    InvalidSignature is never reported. *)
Theorem unsigned_response_unchecked (data : obj) :
  truthy (get data "sign") = false →
  checkResponse self data = firstFailure (take 6 (responseChecks self data))
  ∧ name <$> checkResponse self data ≠ Some "InvalidSignature".
Proof.
  intros Hs. rewrite checkResponse_firstFailure. unfold responseChecks.
  cbn [firstFailure take]. rewrite Hs. split; [reflexivity|].
  cbn [andb]. split_checks.
Qed.

(** X10. A response that carries a signature is accepted only with the
    very string [getSign] computes over its fields: a string, in upper
    case; the digest in lower case, or a number, is rejected. *)
Theorem accepted_signature_exact (data : obj) :
  truthy (get data "sign") = true →
  checkResponse self data = None →
  get data "sign" = VStr (getSign self data None)
  ∧ (∀ s, get data "sign" = VStr s → toUpperCase s = s).
Proof.
  intros Hs Hok.
  assert (get data "sign" = VStr (getSign self data None)) as Heq.
  { symmetry. apply strictNe_false. revert Hok. unfold checkResponse. rewrite Hs.
    cbn [andb].
    repeat match goal with
           | |- context [if strictNe (VStr (getSign self data None)) ?v then _ else _] =>
               destruct (strictNe (VStr (getSign self data None)) v)
           | |- context [if ?b then _ else _] => destruct b
           end; done. }
  split; [done|]. intros s Hv. rewrite Hv in Heq. injection Heq as ->.
  apply getSign_upper.
Qed.

(** X11. The outcome of the validator and the signature depend on the
    fields of a response only, not on the order in which the parser
    delivers them. *)
Theorem checkResponse_field_order (d1 d2 : obj) (signType : option SignType) :
  wf d1 → wf d2 →
  (∀ k v, (k, v) ∈ d1 ↔ (k, v) ∈ d2) →
  getSign self d1 signType = getSign self d2 signType
  ∧ checkResponse self d1 = checkResponse self d2.
Proof.
  intros W1 W2 Hsame.
  pose proof (same_pairs_get d1 d2 W1 W2 Hsame) as Hget.
  assert (∀ t, getSign self d1 t = getSign self d2 t) as Hsig.
  { intros t. rewrite !getSign_canonical. f_equal.
    apply canonical_ext_render; [done|done|]. intros k _. by rewrite Hget. }
  split; [apply Hsig|]. unfold checkResponse. by rewrite !Hget, Hsig.
Qed.

(** X12. The canonical string does not escape the characters [&] and [=]:
    a field whose value contains them is signed like the fields it spells
    out, so two different field maps have the same signature. *)
Theorem signature_not_injective (a b v1 v2 : string) (signType : option SignType) :
  byteLt a b → a ≠ "sign" → b ≠ "sign" → v1 ≠ "" → v2 ≠ "" →
  getSign self [(a, VStr (v1 +:+ "&" +:+ b +:+ "=" +:+ v2))] signType
  = getSign self [(a, VStr v1); (b, VStr v2)] signType.
Proof.
  intros Hab Ha Hb H1 H2.
  assert (a ≠ b) as Hne by (intros ->; by apply byteLt_irrefl in Hab).
  rewrite !getSign_canonical. f_equal.
  assert (wf [(a, VStr (v1 +:+ "&" +:+ b +:+ "=" +:+ v2))]) as Wa.
  { unfold wf, keys. cbn. apply NoDup_singleton. }
  assert (wf [(a, VStr v1); (b, VStr v2)]) as Wb.
  { unfold wf, keys. cbn. apply NoDup_cons. split; [by rewrite list_elem_of_singleton|].
    apply NoDup_singleton. }
  apply (canonicalOf_functional discarded [(a, VStr v1); (b, VStr v2)]);
    [|by apply canonical_sound].
  destruct (canonical_sound _ Wa) as (names & Hsorted & Hnames & ->).
  assert (names = [a]) as ->.
  { apply byteLt_sorted_unique; [done|repeat constructor|].
    intros k. rewrite Hnames, list_elem_of_singleton, not_discarded, get_cons.
    destruct (decide (a = k)) as [<-|Hk].
    - split; [done|]. intros _. split; [done|]. split; [done|].
      intros [= He]. by apply (string_app_nonempty v1 ("&" +:+ b +:+ "=" +:+ v2)) in H1.
    - split; [|congruence]. intros [_ [Hu _]]. by cbn in Hu. }
  exists [a; b]. split; [|split].
  - repeat constructor. done.
  - intros k. rewrite !elem_of_cons, elem_of_nil, not_discarded, !get_cons.
    destruct (decide (a = k)) as [<-|Hk1]; [|destruct (decide (b = k)) as [<-|Hk2]].
    + split; [|tauto]. intros _. split; [done|]. split; congruence.
    + split; [|tauto]. intros _. split; [done|]. split; congruence.
    + split; [intros [?|[?|[]]]; congruence|]. intros [_ [Hu _]]. by cbn in Hu.
  - cbn [map]. rewrite !get_cons, !decide_True by done.
    rewrite decide_False by done. rewrite decide_True by done.
    unfold join. cbn [String.concat toStr].
    by rewrite !string_app_assoc.
Qed.

(** A field that is neither a default, the signature, [long_url] nor
    [notify_url] reaches the order-creation request as the caller gave
    it, turned into a string. *)
Lemma get_order_request nonce (params : obj) (notify : value) k :
  wf params →
  k ∈ [ "body"; "out_trade_no"; "total_fee"; "spbill_create_ip"; "trade_type";
        "openid"; "sub_openid"; "product_id" ] →
  get (requestParams self nonce (UNIFIED_ORDER (urls self))
         (set params "notify_url" notify)) k
  = stringify (get params k).
Proof.
  intros W Hk.
  assert (k ≠ "sign" ∧ k ≠ "long_url" ∧ k ≠ "notify_url"
          ∧ k ∉ ["appid"; "mch_id"; "sub_mch_id"; "nonce_str"]) as (Hs & Hl & Hn & Hd).
  { rewrite !elem_of_cons, !elem_of_nil in Hk. rewrite !elem_of_cons, !elem_of_nil.
    decompose [or] Hk; try done; subst k; repeat split; try discriminate;
      intros Hor; decompose [or] Hor; done. }
  rewrite get_requestParams_merged, get_merged_caller by auto using wf_set.
  by rewrite get_set, decide_False.
Qed.

(** X13. The required-field check of [unifiedOrder] is decided by the
    caller's own fields: body, out_trade_no, total_fee, spbill_create_ip
    and trade_type, with openid or sub_openid for a JSAPI order and
    product_id for a NATIVE one. When one of them is undefined, null or
    empty the callback receives the text naming all of them in that order
    and no request is made (a number, 0 included, counts as present);
    otherwise the first event is the request to the order-creation
    endpoint, built from the order with [notify_url] filled in. *)
Theorem unifiedOrder_required (nonce : string) (params : obj) (callback : Callback) :
  wf params →
  let missing := List.filter (lacking params) (requiredDataOf (get params "trade_type")) in
  let order :=
    set params "notify_url"
      (if truthy (get params "notify_url") then get params "notify_url"
       else VStr (notifyUrl self)) in
  let request := requestParams self nonce (UNIFIED_ORDER (urls self)) order in
  unifiedOrder self nonce params callback
  = match missing with
    | [] =>
        Network (UNIFIED_ORDER (urls self)) (buildXml request) ::
        match axios_get (UNIFIED_ORDER (urls self)) (buildXml request) with
        | Resolved data => tryCatch (validate self data callback)
        | Rejected _ => []
        end
    | _ :: _ => callback (Some (ErrText ("missing params " +:+ join "," missing))) NoData
    end.
Proof.
  intros W missing order request. unfold unifiedOrder. cbv zeta.
  assert ((if looseEqStr (get params "trade_type") "JSAPI"
           then ["body"; "out_trade_no"; "total_fee"; "spbill_create_ip"; "trade_type"]
                ++ ["openid|sub_openid"]
           else if looseEqStr (get params "trade_type") "NATIVE"
                then ["body"; "out_trade_no"; "total_fee"; "spbill_create_ip"; "trade_type"]
                     ++ ["product_id"]
                else ["body"; "out_trade_no"; "total_fee"; "spbill_create_ip"; "trade_type"])
          = requiredDataOf (get params "trade_type")) as ->.
  { unfold requiredDataOf.
    destruct (looseEqStr _ "JSAPI"); [done|]. by destruct (looseEqStr _ "NATIVE"). }
  rewrite signedQuery_unfold. fold order. fold request.
  assert (missingOf request (requiredDataOf (get params "trade_type")) = missing) as ->; [|done].
  unfold missingOf, missing. apply filter_bool_ext. intros entry Hentry.
  rewrite <- unsatisfied_existsb. unfold unsatisfied, lacking.
  rewrite forallb_forall. split.
  - intros Hu alt Halt%list_elem_of_In. specialize (Hu alt Halt).
    unfold request, order in Hu.
    rewrite get_order_request, truthy_stringify_blank in Hu
      by eauto using requiredDataOf_alternatives.
    by apply negb_false_iff in Hu.
  - intros Hl alt Halt. unfold request, order.
    rewrite get_order_request, truthy_stringify_blank
      by eauto using requiredDataOf_alternatives.
    apply negb_false_iff, Hl. by apply list_elem_of_In.
Qed.

(** X14. What the callback of [signedQuery] can receive: the text that
    names the missing entries of [required], without data; the parse
    error of the XML parser, named XMLParseError, with the body of the
    response; one of the six errors of the validator with the parsed
    fields; or no error with parsed fields that pass every check. An
    outcome follows a request exactly when no required field is
    missing. *)
Theorem signedQuery_outcomes (nonce url : string) (params : obj)
    (required : list string) (err : option error) (data : payload) :
  Delivered err data ∈ signedQuery self nonce url params required deliver →
  match err, data with
  | Some (ErrText msg), NoData =>
      ∃ missing, missing ≠ [] ∧ (∀ entry, entry ∈ missing → entry ∈ required)
                 ∧ msg = "missing params " +:+ join "," missing
                 ∧ signedQuery self nonce url params required deliver = [Delivered err data]
  | Some (ErrObject e), RawBody xml =>
      name e = "XMLParseError"
      ∧ ∃ body, signedQuery self nonce url params required deliver
                = [Network url body; Delivered err data]
                ∧ axios_get url body = Resolved xml
  | Some (ErrObject e), Fields fields =>
      name e ∈ validationErrors ∧ checkResponse self fields = Some e
      ∧ ∃ body, signedQuery self nonce url params required deliver
                = [Network url body; Delivered err data]
  | None, Fields fields =>
      checkResponse self fields = None
      ∧ ∃ body, signedQuery self nonce url params required deliver
                = [Network url body; Delivered err data]
  | _, _ => False
  end.
Proof.
  rewrite signedQuery_unfold.
  destruct (missingOf (requestParams self nonce url params) required) as [|m ms] eqn:Hm.
  - destruct (axios_get url _) as [reason|xml] eqn:Hx.
    { rewrite list_elem_of_singleton. discriminate. }
    rewrite validate_deliver, elem_of_cons.
    destruct (parseString xml) as [msg|json|]; cbn [tryCatch];
      [| |by rewrite elem_of_nil; intros [?|[]]];
      rewrite list_elem_of_singleton; (intros [?|[= -> ->]]; [discriminate|]).
    + split; [done|]. eauto.
    + destruct (checkResponse self (default [] json)) as [e|] eqn:Hc; cbn [fmap option_fmap option_map].
      * split; [by eapply checkResponse_name|]. eauto.
      * eauto.
  - unfold deliver. rewrite list_elem_of_singleton. intros [= -> ->].
    exists (m :: ms). split; [done|]. split; [|done].
    intros entry. rewrite <- Hm. unfold missingOf. rewrite list_elem_of_filter. tauto.
Qed.

(** ** The same operations on references *)

Lemma wf_mergedParams nonce url params : wf (mergedParams self nonce url params).
Proof.
  pose proof (wf_requestParams self nonce url params) as W.
  unfold wf, requestParams in W. by rewrite keys_stringify in W.
Qed.

Lemma extendWithDefaultRef_spec nonce (h : heap) obj ks o :
  h !! obj = Some o →
  ∃ l h', extendWithDefaultRef self nonce h obj ks = (l, h')
          ∧ h !! l = None
          ∧ h' !! l = Some (extendWithDefault self nonce o ks)
          ∧ h ⊆ h'.
Proof.
  intros Ho. unfold extendWithDefaultRef, allocRef. cbv beta iota zeta.
  set (ld := fresh (dom h)).
  set (h1 := <[ld := defaultsOf self nonce]> h).
  set (le := fresh (dom h1)).
  assert (h !! ld = None) as Hld by apply fresh_lookup.
  assert (h1 !! le = None) as Hle by apply fresh_lookup.
  assert (h1 !! ld = Some (defaultsOf self nonce)) as Hd by apply lookup_insert_eq.
  assert (ld ≠ le) as Hne by (by apply (fresh_ne h1 ld _ Hd)).
  assert (h ⊆ h1) as Hsub by (by apply insert_subseteq).
  assert (h1 !! obj = Some o) as Ho1 by (by apply (lookup_weaken h)).
  assert (obj ≠ le) as Hoe by (by apply (fresh_ne h1 obj _ Ho1)).
  rewrite (defaults_loop _ ld le (defaultsOf self nonce) []);
    [|done|by rewrite lookup_insert_ne|by rewrite lookup_insert_eq].
  rewrite insert_insert_eq. unfold extendRef.
  rewrite (deref_lookup _ obj o) by (by rewrite lookup_insert_ne).
  rewrite alter_insert_eq.
  eexists le, _. split; [reflexivity|]. split; [|split].
  - by apply (lookup_weaken_None h h1).
  - by rewrite lookup_insert_eq.
  - apply insert_subseteq_r; [by apply (lookup_weaken_None h h1)|done].
Qed.

Lemma requestParamsRef_spec nonce url (h : heap) params o :
  h !! params = Some o →
  ∃ l h', requestParamsRef self nonce url h params = (l, h')
          ∧ h !! l = None
          ∧ h' !! l = Some (requestParams self nonce url o)
          ∧ h ⊆ h'.
Proof.
  intros Hp. unfold requestParamsRef.
  assert ((if String.eqb url (REDPACK_SEND (urls self))
           then extendWithDefaultRef self nonce h params ["mch_id"; "nonce_str"]
           else if String.eqb url (TRANSFERS (urls self))
                then extendWithDefaultRef self nonce h params ["nonce_str"]
                else extendWithDefaultRef self nonce h params
                       ["appid"; "mch_id"; "sub_mch_id"; "nonce_str"])
          = extendWithDefaultRef self nonce h params (defaultKeys self url)) as ->.
  { unfold defaultKeys. destruct (String.eqb url (REDPACK_SEND (urls self))); [done|].
    by destruct (String.eqb url (TRANSFERS (urls self))). }
  destruct (extendWithDefaultRef_spec nonce h params (defaultKeys self url) o Hp)
    as (le & h1 & -> & Hle & Hle1 & Hsub1).
  pose proof (getSignRef_value self h1 le None) as Hv.
  pose proof (getSignRef_heap self h1 le None) as Hh.
  destruct (getSignRef self h1 le None) as [sv h2]. cbn [fst snd] in Hv, Hh.
  rewrite (deref_lookup _ _ _ Hle1) in Hv, Hh.
  unfold allocRef. cbv beta iota zeta.
  set (ls := fresh (dom h2)).
  assert (h2 !! ls = None) as Hls by apply fresh_lookup.
  assert (h1 ⊆ h2) as Hsub2.
  { rewrite Hh. apply insert_subseteq, fresh_lookup. }
  assert (h2 !! le = Some (extendWithDefault self nonce o (defaultKeys self url))) as Hle2
    by (by apply (lookup_weaken h1)).
  assert (le ≠ ls) as Hne by (by apply (fresh_ne h2 le _ Hle2)).
  unfold extendRef. rewrite alter_insert_eq.
  rewrite (deref_lookup _ le _) by (by rewrite lookup_insert_ne).
  rewrite (deref_lookup _ ls _ (lookup_insert_eq _ _ _)).
  set (signed := extend [("sign", VStr sv)] (extendWithDefault self nonce o (defaultKeys self url))).
  assert ((if truthy (get signed "long_url")
           then setRef (<[ls := signed]> h2) ls "long_url"
                  (VStr (encodeURIComponent (toStr (get signed "long_url"))))
           else <[ls := signed]> h2)
          = <[ls := mergedParams self nonce url o]> h2) as ->.
  { rewrite mergedParams_unfold. cbv zeta. rewrite <- Hv. fold signed.
    destruct (truthy (get signed "long_url")); [|done].
    unfold setRef. by rewrite alter_insert_eq. }
  rewrite (deref_lookup _ ls _ (lookup_insert_eq _ _ _)).
  rewrite (stringify_heap_loop _ ls (mergedParams self nonce url o))
    by (by rewrite lookup_insert_eq).
  rewrite insert_insert_eq, stringify_loop by apply wf_mergedParams.
  eexists ls, _. split; [reflexivity|]. split; [|split].
  - apply (lookup_weaken_None h h2); [done|]. by transitivity h1.
  - by rewrite lookup_insert_eq.
  - apply insert_subseteq_r; [|by transitivity h1].
    apply (lookup_weaken_None h h2); [done|]. by transitivity h1.
Qed.

(** X15. [extendWithDefault] returns a new object, which holds the
    defaults and the caller's fields; the object the caller passed and
    every other object that existed before the call are unchanged. *)
Theorem extendWithDefault_returns_new_object (nonce : string) (h : heap) (ref : loc)
    (keysNeedExtend : list string) (o : obj) :
  h !! ref = Some o →
  let result := extendWithDefaultRef self nonce h ref keysNeedExtend in
  h !! result.1 = None
  ∧ result.2 !! result.1 = Some (extendWithDefault self nonce o keysNeedExtend)
  ∧ result.2 !! ref = Some o
  ∧ (∀ l o', h !! l = Some o' → result.2 !! l = Some o').
Proof.
  intros Ho result. subst result.
  destruct (extendWithDefaultRef_spec nonce h ref keysNeedExtend o Ho)
    as (l & h' & -> & Hl & Hl' & Hsub).
  cbn [fst snd]. repeat split; try done.
  - by apply (lookup_weaken h).
  - intros l' o' Hl0. by apply (lookup_weaken h).
Qed.

(** X16. [signedQuery] builds the parameters it checks and sends in an
    object of its own: the defaults, the signature, the escaped
    [long_url] and the conversion to strings all land there, and the
    object the caller passed, like every other object that existed
    before, is unchanged. *)
Theorem signedQuery_preserves_argument (nonce url : string) (h : heap) (params : loc)
    (o : obj) :
  h !! params = Some o →
  let result := requestParamsRef self nonce url h params in
  h !! result.1 = None
  ∧ result.2 !! result.1 = Some (requestParams self nonce url o)
  ∧ result.2 !! params = Some o
  ∧ (∀ l o', h !! l = Some o' → result.2 !! l = Some o').
Proof.
  intros Ho result. subst result.
  destruct (requestParamsRef_spec nonce url h params o Ho)
    as (l & h' & -> & Hl & Hl' & Hsub).
  cbn [fst snd]. repeat split; try done.
  - by apply (lookup_weaken h).
  - intros l' o' Hl0. by apply (lookup_weaken h).
Qed.

(** X17. [unifiedOrder] writes to the object the caller passed: after the
    call its [notify_url] is the caller's when that one is not empty and
    the configured one otherwise (so an order that names its
    [notify_url] is left as it was), its other fields are as before, and
    no other object that existed is changed; the request is built from
    the updated order, and the required entries from the order's
    [trade_type]. *)
Theorem unifiedOrder_updates_argument (nonce : string) (h : heap) (params : loc)
    (o : obj) :
  h !! params = Some o →
  let order :=
    set o "notify_url"
      (if truthy (get o "notify_url") then get o "notify_url"
       else VStr (notifyUrl self)) in
  let result := unifiedOrderRef self nonce h params in
  result.1 = requiredDataOf (get o "trade_type")
  ∧ result.2.2 !! params = Some order
  ∧ result.2.2 !! result.2.1
    = Some (requestParams self nonce (UNIFIED_ORDER (urls self)) order)
  ∧ (∀ l o', l ≠ params → h !! l = Some o' → result.2.2 !! l = Some o')
  ∧ (∀ k, k ≠ "notify_url" → get order k = get o k)
  ∧ (truthy (get o "notify_url") = true → order = o).
Proof.
  intros Ho order result. subst result. unfold unifiedOrderRef. cbv zeta.
  rewrite (deref_lookup _ _ _ Ho). unfold setRef.
  rewrite (alter_lookup _ _ _ _ Ho). cbn beta. fold order.
  destruct (requestParamsRef_spec nonce (UNIFIED_ORDER (urls self))
              (<[params := order]> h) params order (lookup_insert_eq _ _ _))
    as (l & h' & -> & Hl & Hl' & Hsub).
  cbn [fst snd]. split; [done|]. split; [|split; [done|split; [|split]]].
  - apply (lookup_weaken (<[params := order]> h)); [|done]. apply lookup_insert_eq.
  - intros l' o' Hne Hl0. apply (lookup_weaken (<[params := order]> h)); [|done].
    by rewrite lookup_insert_ne.
  - intros k Hk. unfold order. by rewrite get_set, decide_False.
  - intros Ht. unfold order. rewrite Ht. apply set_same.
    unfold get in *. destruct (lookup_field o "notify_url"); [done|discriminate].
Qed.

(** X18. [getBrandWCPayRequestParams] does not write to the order the
    caller passed: [unifiedOrder] runs on the copy [extendWithDefault]
    returns, so the caller's object and every other object that existed
    are unchanged, and the request is built from the copy with its
    [notify_url] filled in. *)
Theorem getBrandWCPayRequestParams_preserves_order
    (timeStamp nonceStr nonce1 nonce2 : string) (h : heap) (order : loc) (o : obj) :
  h !! order = Some o →
  let copy := extendWithDefault self nonce1 o ["notify_url"] in
  let result := brandWCPayOrderRef self timeStamp nonceStr nonce1 nonce2 h order in
  result.2.2 !! order = Some o
  ∧ (∀ l o', h !! l = Some o' → result.2.2 !! l = Some o')
  ∧ result.1 = requiredDataOf (get copy "trade_type")
  ∧ result.2.2 !! result.2.1
    = Some (requestParams self nonce2 (UNIFIED_ORDER (urls self))
              (set copy "notify_url"
                 (if truthy (get copy "notify_url") then get copy "notify_url"
                  else VStr (notifyUrl self)))).
Proof.
  intros Ho copy result. subst result. unfold brandWCPayOrderRef, allocRef.
  cbv beta iota zeta.
  set (h0 := <[fresh (dom h) := _]> h).
  assert (h ⊆ h0) as Hsub0 by apply insert_subseteq, fresh_lookup.
  assert (h0 !! order = Some o) as Ho0 by (by apply (lookup_weaken h)).
  destruct (extendWithDefaultRef_spec nonce1 h0 order ["notify_url"] o Ho0)
    as (lc & h1 & -> & Hlc & Hlc1 & Hsub1).
  fold copy in Hlc1. unfold unifiedOrderRef. cbv zeta.
  rewrite (deref_lookup _ _ _ Hlc1). unfold setRef.
  rewrite (alter_lookup _ _ _ _ Hlc1). cbn beta.
  set (filled := set copy "notify_url" _).
  destruct (requestParamsRef_spec nonce2 (UNIFIED_ORDER (urls self))
              (<[lc := filled]> h1) lc filled (lookup_insert_eq _ _ _))
    as (l & h' & -> & Hl & Hl' & Hsub).
  cbn [fst snd].
  assert (h ⊆ h') as Hall.
  { transitivity h0; [done|]. transitivity (<[lc := filled]> h1); [|done].
    by apply insert_subseteq_r. }
  split; [by apply (lookup_weaken h)|]. split; [|done].
  intros l' o' Hl0. by apply (lookup_weaken h).
Qed.

(** X19. Every request carries a nonce unless the caller supplies the
    field: at every endpoint, red-packet and transfer included, the
    [nonce_str] of the request is the generated string of 32 letters and
    digits. *)
Theorem request_carries_nonce (draws : nat → nat) (url : string) (params : obj) :
  (∀ i, draws i < 62) → wf params → "nonce_str" ∉ keys params →
  get (requestParams self (generateNonceStr draws None) url params) "nonce_str"
  = VStr (generateNonceStr draws None)
  ∧ String.length (generateNonceStr draws None) = 32
  ∧ (∀ c, c ∈ list_ascii_of_string (generateNonceStr draws None) →
          c ∈ list_ascii_of_string nonceChars).
Proof.
  intros Hd W Hk.
  destruct (nonce_loop draws "" 0 32 Hd) as [Hlen Hch].
  assert (String.length (generateNonceStr draws None) = 32) as Hlen' by exact Hlen.
  split; [|split; [done|]].
  - rewrite get_requestParams_merged, extendWithDefault_get by done.
    rewrite decide_False by done.
    assert (get (defaultsOf self (generateNonceStr draws None)) "nonce_str"
            = VStr (generateNonceStr draws None)) as -> by reflexivity.
    assert (generateNonceStr draws None ≠ "") as Hne.
    { intros He. rewrite He in Hlen'. discriminate. }
    rewrite decide_True; [done|]. split.
    + unfold defaultKeys.
      destruct (String.eqb url (REDPACK_SEND (urls self)));
        [|destruct (String.eqb url (TRANSFERS (urls self)))];
        rewrite !elem_of_cons; tauto.
    + cbn [truthy]. by apply negb_true_iff, String.eqb_neq.
  - intros c Hc. destruct (Hch c Hc) as [Hnil|?]; [|done]. by apply elem_of_nil in Hnil.
Qed.

(** X20. The [notify_url] of an order-creation request is the caller's
    when the caller gives one that is not empty, and the configured one
    otherwise, also when the caller passes the field as undefined, null
    or empty. *)
Theorem unifiedOrder_notify_url (nonce : string) (params : obj) :
  wf params →
  get (requestParams self nonce (UNIFIED_ORDER (urls self))
         (set params "notify_url"
            (if truthy (get params "notify_url") then get params "notify_url"
             else VStr (notifyUrl self)))) "notify_url"
  = VStr (if truthy (get params "notify_url") then toStr (get params "notify_url")
          else notifyUrl self).
Proof.
  intros W.
  rewrite get_requestParams_merged, get_merged_caller; auto using wf_set; try done.
  - rewrite get_set, decide_True by done.
    destruct (get params "notify_url") as [| |s|z] eqn:Hv; try reflexivity;
      cbn [truthy]; by destruct (negb _).
  - rewrite !elem_of_cons, elem_of_nil. intros Hor. decompose [or] Hor; done.
Qed.

(** X21. A document the parser reads as nothing is validated as a
    response without fields: no status, no identity and no signature is
    required of it, so it is delivered without an error, unless the
    client is configured with a sub-merchant id, in which case
    InvalidSubMchId is reported. *)
Theorem empty_document_accepted (xml : string) (callback : Callback) :
  parseString xml = Parsed None →
  validate self xml callback
  = callback (if String.eqb (subMchId self) "" then None
              else Some (ErrObject (newError VUndefined "InvalidSubMchId")))
      (Fields []).
Proof.
  intros Hp. unfold validate. rewrite Hp. cbn [default]. f_equal.
  unfold checkResponse. cbn [get lookup_field default truthy andb].
  rewrite !(proj2 (strictEq_false VUndefined (VStr "FAIL"))) by discriminate.
  rewrite (proj2 (strictNe_true (VStr (subMchId self)) VUndefined)) by discriminate.
  by destruct (String.eqb (subMchId self) "").
Qed.

End Coverage.

(** ** The model on the sample data *)

Example split_alternatives : split "|" "openid|sub_openid" = ["openid"; "sub_openid"].
Proof. reflexivity. Qed.

Example split_empty : split "|" "" = [""].
Proof. reflexivity. Qed.

Example upper_hex : toUpperCase "9a0f3c" = "9A0F3C".
Proof. reflexivity. Qed.

Example num_to_string : toStr (VNum 100) = "100".
Proof. reflexivity. Qed.

Example canonical_sample : canonical sampleSigned = "a=1&b=2&n=null".
Proof. reflexivity. Qed.

Example getSign_sample :
  getSign (libs := sampleLibraries [] sampleOffline) sampleClient sampleSigned None
  = "MD5:A=1&B=2&N=NULL&KEY=KEY1".
Proof. reflexivity. Qed.

Example requestParams_sample :
  requestParams (libs := sampleLibraries [] sampleOffline) sampleClient "N0"
    (UNIFIED_ORDER productionUrls) sampleOrder
  = [ ("sign", VStr "MD5:APPID=WX1&BODY=T&MCH_ID=MCH1&NONCE_STR=N0&OUT_TRADE_NO=1&PRODUCT_ID=P1&SPBILL_CREATE_IP=1.2.3.4&TOTAL_FEE=100&TRADE_TYPE=NATIVE&KEY=KEY1");
      ("appid", VStr "wx1");
      ("mch_id", VStr "mch1");
      ("nonce_str", VStr "N0");
      ("body", VStr "T");
      ("out_trade_no", VStr "1");
      ("total_fee", VStr "100");
      ("spbill_create_ip", VStr "1.2.3.4");
      ("trade_type", VStr "NATIVE");
      ("product_id", VStr "p1") ].
Proof. vm_compute. reflexivity. Qed.

(** The required-field example of the specification: with the required
    list [["a|b"]], the parameters [{b: "x"}] pass and the empty
    parameters fail, naming [a|b]. *)
Example required_alternative_passes :
  signedQuery (libs := sampleLibraries sampleNoSubMch (sampleOnline "<xml/>"))
    sampleClient "N0" (ORDER_QUERY productionUrls) [("b", VStr "x")] ["a|b"] deliver
  = [ Network (ORDER_QUERY productionUrls)
        (sampleXml (requestParams (libs := sampleLibraries [] sampleOffline)
                      sampleClient "N0" (ORDER_QUERY productionUrls) [("b", VStr "x")]));
      Delivered None (Fields sampleNoSubMch) ].
Proof. vm_compute. reflexivity. Qed.

Example required_alternative_fails :
  signedQuery (libs := sampleLibraries sampleNoSubMch (sampleOnline "<xml/>"))
    sampleClient "N0" (ORDER_QUERY productionUrls) [] ["a|b"; "c"] deliver
  = [Delivered (Some (ErrText "missing params a|b,c")) NoData].
Proof. vm_compute. reflexivity. Qed.

(** The end-to-end example of the specification: the response to the
    sample order carries the signature of its own fields, validates and
    yields the prepay token; the two-step flow then builds the second
    payload. *)
Example order_response_signed :
  get sampleOrderResponse "sign"
  = VStr (getSign (libs := sampleLibraries [] sampleOffline) sampleClient
            sampleOrderResponse None).
Proof. reflexivity. Qed.

Example order_response_validates :
  validate (libs := sampleLibraries sampleOrderResponse sampleOffline) sampleClient
    "<xml/>" deliver
  = [Delivered None (Fields sampleOrderResponse)]
  ∧ get sampleOrderResponse "prepay_id" = VStr "abc".
Proof. split; reflexivity. Qed.

Example order_response_lowercase_signature_rejected :
  checkResponse (libs := sampleLibraries [] sampleOffline) sampleClient
    (set sampleOrderResponse "sign"
       (VStr "md5:appid=wx1&code_url=weixin://x&mch_id=mch1&prepay_id=abc&result_code=SUCCESS&return_code=SUCCESS&key=key1"))
  = Some {| name := "InvalidSignature"; message := "" |}.
Proof. reflexivity. Qed.

(** The flow on the sample order, answered with the signed sample
    response: the second step starts and nothing is delivered. *)
Example two_step_flow_sample :
  getBrandWCPayRequestParams
    (libs := sampleLibraries sampleOrderResponse (sampleOnline "<xml/>")) sampleClient
    "1700000000" "N0" "N1" "N2" sampleOrder deliver
  = [ Network (UNIFIED_ORDER productionUrls)
        (sampleXml (requestParams (libs := sampleLibraries [] sampleOffline) sampleClient
                      "N2" (UNIFIED_ORDER productionUrls)
                      (set (extendWithDefault sampleClient "N1" sampleOrder ["notify_url"])
                         "notify_url" (VStr "https://shop.example/notify"))));
      SecondStep ].
Proof. vm_compute. reflexivity. Qed.

(** The same callback run with the instance as its receiver. *)
Example continuation_with_receiver_sample :
  brandWCPayContinuation (libs := sampleLibraries [] sampleOffline) (Some sampleClient)
    [ ("appId", VStr "wx1"); ("timeStamp", VStr "1700000000");
      ("nonceStr", VStr "N0"); ("signType", VStr "MD5") ]
    sampleOrder deliver None (Fields sampleOrderResponse)
  = [ SecondStep;
      Delivered None
        (Fields
           [ ("appId", VStr "wx1");
             ("timeStamp", VStr "1700000000");
             ("nonceStr", VStr "N0");
             ("signType", VStr "MD5");
             ("package", VStr "prepay_id=abc");
             ("paySign", VStr "MD5:APPID=WX1&NONCESTR=N0&PACKAGE=PREPAY_ID=ABC&SIGNTYPE=MD5&TIMESTAMP=1700000000&KEY=KEY1");
             ("code_url", VStr "weixin://x");
             ("timestamp", VStr "1700000000") ]) ].
Proof. vm_compute. reflexivity. Qed.

Example trim_sample : trim "  a b  " = "a b" ∧ trim "   " = "" ∧ trim "T" = "T".
Proof. repeat split. Qed.

(** ** Instances of the theorems and counterexamples *)

Lemma wf_sampleSigned : wf sampleSigned.
Proof. solve_wf. Qed.

Lemma wf_sampleOrder : wf sampleOrder.
Proof. solve_wf. Qed.

(** The characterisation on a field map with a [sign] field, an empty,
    an undefined and a null value. *)
Lemma canonical_characterised_witness :
  wf sampleSigned ∧ canonicalOf discarded sampleSigned "a=1&b=2&n=null".
Proof.
  split; [solve_wf|].
  apply (proj1 (canonical_characterised sampleSigned wf_sampleSigned)).
  reflexivity.
Defined.

(** The two insertion orders of [{a: "1", b: "2"}]. *)
Lemma toQueryString_order_independent_witness :
  toQueryString [("b", VStr "2"); ("a", VStr "1")]
  = toQueryString [("a", VStr "1"); ("b", VStr "2")].
Proof.
  apply (toQueryString_order_independent
           [("b", VStr "2"); ("a", VStr "1")] [("a", VStr "1"); ("b", VStr "2")]).
  - solve_wf.
  - solve_wf.
  - intros k v. rewrite !elem_of_cons, elem_of_nil. tauto.
Defined.

(** A heap holding one object that has a [sign] field. *)
Lemma getSign_preserves_argument_witness :
  (getSignRef (libs := sampleLibraries [] sampleOffline) sampleClient
     (<[0 := sampleSigned]> ∅) 0 None).2 !! 0
  = Some sampleSigned.
Proof.
  apply (proj1 (getSign_preserves_argument (libs := sampleLibraries [] sampleOffline)
                  sampleClient (<[0 := sampleSigned]> ∅) 0 sampleSigned None
                  (lookup_insert_eq _ _ _))).
Defined.

(** A response with [return_code] SUCCESS, [result_code] FAIL and a
    foreign [appid]: the business error comes first. *)
Lemma validate_check_order_witness :
  validate (libs := sampleLibraries sampleBusinessFailure sampleOffline) sampleClient
    "<xml/>" deliver
  = [ Delivered
        (Some (ErrObject {| name := "BusinessError"; message := "ORDERPAID" |}))
        (Fields sampleBusinessFailure) ].
Proof.
  apply (validate_check_order (libs := sampleLibraries sampleBusinessFailure sampleOffline)
           sampleClient "<xml/>" (Some sampleBusinessFailure) deliver eq_refl);
    reflexivity.
Defined.

(** The order-creation request of the sample order and the synthetic
    response to it, as the parser reads it. *)
Lemma request_response_roundtrip_witness :
  wf sampleOrder
  ∧ validate
      (libs := sampleLibraries
                 (parsedFields
                    (syntheticResponse (libs := sampleLibraries [] sampleOffline) sampleClient
                       (requestParams (libs := sampleLibraries [] sampleOffline) sampleClient
                          "N0" (UNIFIED_ORDER productionUrls) sampleOrder)))
                 sampleOffline)
      sampleClient "<xml/>" deliver
    = [ Delivered None
          (Fields
             (parsedFields
                (syntheticResponse (libs := sampleLibraries [] sampleOffline) sampleClient
                   (requestParams (libs := sampleLibraries [] sampleOffline) sampleClient
                      "N0" (UNIFIED_ORDER productionUrls) sampleOrder)))) ].
Proof.
  split; [solve_wf|].
  apply (request_response_roundtrip
           (libs := sampleLibraries
                      (parsedFields
                         (syntheticResponse (libs := sampleLibraries [] sampleOffline)
                            sampleClient
                            (requestParams (libs := sampleLibraries [] sampleOffline)
                               sampleClient "N0" (UNIFIED_ORDER productionUrls)
                               sampleOrder)))
                      sampleOffline)
           sampleClient "N0" (UNIFIED_ORDER productionUrls) "<xml/>" sampleOrder
           wf_sampleOrder eq_refl eq_refl).
Defined.

(** C3, as stated, fails: a business field whose value has white space
    at both ends. The synthetic response carries the value of the
    request and is signed over it, and passes every check as it stands;
    the parser of [validate] trims the value, the signature computed over
    the parsed fields differs, and the validator reports
    InvalidSignature. *)
Lemma padded_value_rejected :
  get (syntheticResponse (libs := sampleLibraries [] sampleOffline) sampleClient
         (requestParams (libs := sampleLibraries [] sampleOffline) sampleClient
            "N0" (ORDER_QUERY productionUrls) samplePadded)) "body"
  = VStr " T "
  ∧ checkResponse (libs := sampleLibraries [] sampleOffline) sampleClient
      (syntheticResponse (libs := sampleLibraries [] sampleOffline) sampleClient
         (requestParams (libs := sampleLibraries [] sampleOffline) sampleClient
            "N0" (ORDER_QUERY productionUrls) samplePadded))
    = None
  ∧ get (parsedFields
           (syntheticResponse (libs := sampleLibraries [] sampleOffline) sampleClient
              (requestParams (libs := sampleLibraries [] sampleOffline) sampleClient
                 "N0" (ORDER_QUERY productionUrls) samplePadded))) "body"
    = VStr "T"
  ∧ validate
      (libs := sampleLibraries
                 (parsedFields
                    (syntheticResponse (libs := sampleLibraries [] sampleOffline) sampleClient
                       (requestParams (libs := sampleLibraries [] sampleOffline) sampleClient
                          "N0" (ORDER_QUERY productionUrls) samplePadded)))
                 sampleOffline)
      sampleClient "<xml/>" deliver
    = [ Delivered (Some (ErrObject {| name := "InvalidSignature"; message := "" |}))
          (Fields
             (parsedFields
                (syntheticResponse (libs := sampleLibraries [] sampleOffline) sampleClient
                   (requestParams (libs := sampleLibraries [] sampleOffline) sampleClient
                      "N0" (ORDER_QUERY productionUrls) samplePadded)))) ].
Proof. vm_compute. repeat split. Qed.

(** C7, as stated, fails: for a client configured with a sub-merchant id
    a response that lacks the [sub_mch_id] field yields InvalidSubMchId,
    while the same response with the field added passes. *)
Lemma absent_sub_mch_id_rejected :
  lookup_field sampleNoSubMch "sub_mch_id" = None
  ∧ checkResponse (libs := sampleLibraries [] sampleOffline) sampleSubClient sampleNoSubMch
    = Some {| name := "InvalidSubMchId"; message := "" |}
  ∧ checkResponse (libs := sampleLibraries [] sampleOffline) sampleSubClient
      (set sampleNoSubMch "sub_mch_id" (VStr "sub1"))
    = None.
Proof. repeat split. Qed.

(** C5, failing input: the network exchange of an order query is
    rejected; the run ends after the exchange and nothing is delivered to
    the caller, neither an error nor a result. *)
Theorem transport_failure_not_reported :
  signedQuery (libs := sampleLibraries [] sampleOffline) sampleClient "N0"
    (ORDER_QUERY productionUrls) [("out_trade_no", VStr "1")]
    ["transaction_id|out_trade_no"] deliver
  = [ Network (ORDER_QUERY productionUrls)
        (sampleXml (requestParams (libs := sampleLibraries [] sampleOffline) sampleClient
                      "N0" (ORDER_QUERY productionUrls) [("out_trade_no", VStr "1")])) ].
Proof. vm_compute. reflexivity. Qed.

(** C9, failing input: the network exchange of the first step is
    rejected; the second step is not started, and the error of the first
    step does not reach the caller of the flow either. *)
Theorem two_step_transport_failure_not_passed :
  getBrandWCPayRequestParams (libs := sampleLibraries [] sampleOffline) sampleClient
    "1700000000" "N0" "N1" "N2" sampleOrder deliver
  = [ Network (UNIFIED_ORDER productionUrls)
        (sampleXml (requestParams (libs := sampleLibraries [] sampleOffline) sampleClient
                      "N2" (UNIFIED_ORDER productionUrls)
                      (set (extendWithDefault sampleClient "N1" sampleOrder ["notify_url"])
                         "notify_url" (VStr "https://shop.example/notify")))) ].
Proof. vm_compute. reflexivity. Qed.

Lemma sampleDraws_bound i : sampleDraws i < 62.
Proof. unfold sampleDraws. apply Nat.mod_upper_bound. lia. Qed.

(** A nonce of the default length. *)
Lemma generateNonceStr_shape_witness :
  String.length (generateNonceStr sampleDraws None) = 32.
Proof.
  apply (proj1 (generateNonceStr_shape sampleDraws None sampleDraws_bound)).
Defined.

(** The body of the sample order after [extendWithDefault]. *)
Lemma extendWithDefault_lookup_witness :
  get (extendWithDefault sampleClient "N1" sampleOrder ["notify_url"]) "body" = VStr "T".
Proof.
  apply (proj1 (extendWithDefault_lookup sampleClient "N1" sampleOrder ["notify_url"]
                  wf_sampleOrder) "body" (VStr "T")).
  left.
Defined.

(** A red-packet request gets no app id. *)
Lemma request_defaults_by_endpoint_witness :
  get (requestParams (libs := sampleLibraries [] sampleOffline) sampleClient "N0"
         (REDPACK_SEND productionUrls) sampleOrder) "appid"
  = VUndefined.
Proof.
  apply (proj1 (proj2 (request_defaults_by_endpoint
                         (libs := sampleLibraries [] sampleOffline) sampleClient "N0"
                         (REDPACK_SEND productionUrls) sampleOrder "appid"
                         wf_sampleOrder
                         ltac:(apply (bool_decide_unpack _); vm_compute; exact I)
                         ltac:(left)))).
Defined.

(** The signature of the order-creation request of the sample order. *)
Lemma request_signature_verifies_witness :
  get (requestParams (libs := sampleLibraries [] sampleOffline) sampleClient "N0"
         (UNIFIED_ORDER productionUrls) sampleOrder) "sign"
  = VStr (getSign (libs := sampleLibraries [] sampleOffline) sampleClient
            (requestParams (libs := sampleLibraries [] sampleOffline) sampleClient "N0"
               (UNIFIED_ORDER productionUrls) sampleOrder) None).
Proof.
  apply (request_signature_verifies (libs := sampleLibraries [] sampleOffline)
           sampleClient "N0" (UNIFIED_ORDER productionUrls) sampleOrder wf_sampleOrder).
  apply (bool_decide_unpack _). vm_compute. exact I.
Defined.

(** A caller who passes a [sign] field gets it sent. *)
Lemma caller_sign_overrides_witness :
  get (requestParams (libs := sampleLibraries [] sampleOffline) sampleClient "N0"
         (ORDER_QUERY productionUrls) sampleSigned) "sign"
  = VStr "OLD".
Proof.
  apply (proj1 (caller_sign_overrides (libs := sampleLibraries [] sampleOffline)
                  sampleClient "N0" (ORDER_QUERY productionUrls) sampleSigned (VStr "OLD")
                  wf_sampleSigned ltac:(right; left))).
Defined.

(** A response without a [sign] field. *)
Lemma unsigned_response_unchecked_witness :
  checkResponse (libs := sampleLibraries [] sampleOffline) sampleClient sampleNoSubMch
  = firstFailure
      (take 6 (responseChecks (libs := sampleLibraries [] sampleOffline) sampleClient
                 sampleNoSubMch)).
Proof.
  apply (proj1 (unsigned_response_unchecked (libs := sampleLibraries [] sampleOffline)
                  sampleClient sampleNoSubMch eq_refl)).
Defined.

(** The signed response to the sample order. *)
Lemma accepted_signature_exact_witness :
  get sampleOrderResponse "sign"
  = VStr (getSign (libs := sampleLibraries [] sampleOffline) sampleClient
            sampleOrderResponse None).
Proof.
  apply (proj1 (accepted_signature_exact (libs := sampleLibraries [] sampleOffline)
                  sampleClient sampleOrderResponse eq_refl eq_refl)).
Defined.

(** The fields of a response in two orders. *)
Lemma checkResponse_field_order_witness :
  checkResponse (libs := sampleLibraries [] sampleOffline) sampleClient
    [("result_code", VStr "FAIL"); ("return_code", VStr "SUCCESS")]
  = checkResponse (libs := sampleLibraries [] sampleOffline) sampleClient
      [("return_code", VStr "SUCCESS"); ("result_code", VStr "FAIL")].
Proof.
  apply (proj2 (checkResponse_field_order (libs := sampleLibraries [] sampleOffline)
                  sampleClient
                  [("result_code", VStr "FAIL"); ("return_code", VStr "SUCCESS")]
                  [("return_code", VStr "SUCCESS"); ("result_code", VStr "FAIL")]
                  None ltac:(solve_wf) ltac:(solve_wf)
                  ltac:(intros k v; rewrite !elem_of_cons, elem_of_nil; tauto))).
Defined.

(** One field spelling out two. *)
Lemma signature_not_injective_witness :
  getSign (libs := sampleLibraries [] sampleOffline) sampleClient
    [("a", VStr "1&b=2")] None
  = getSign (libs := sampleLibraries [] sampleOffline) sampleClient
      [("a", VStr "1"); ("b", VStr "2")] None.
Proof.
  apply (signature_not_injective (libs := sampleLibraries [] sampleOffline) sampleClient
           "a" "b" "1" "2" None).
  - cbn [byteLt]. left. apply Nat.ltb_lt. vm_compute. reflexivity.
  - discriminate.
  - discriminate.
  - discriminate.
  - discriminate.
Defined.

(** An order that has a body only. *)
Lemma unifiedOrder_required_witness :
  unifiedOrder (libs := sampleLibraries [] sampleOffline) sampleClient "N0"
    [("body", VStr "T")] deliver
  = [ Delivered
        (Some (ErrText "missing params out_trade_no,total_fee,spbill_create_ip,trade_type"))
        NoData ].
Proof.
  apply (unifiedOrder_required (libs := sampleLibraries [] sampleOffline) sampleClient "N0"
           [("body", VStr "T")] deliver).
  solve_wf.
Defined.

(** The outcome of an order query that is answered with the signed
    sample response. *)
Lemma signedQuery_outcomes_witness :
  checkResponse (libs := sampleLibraries sampleOrderResponse (sampleOnline "<xml/>"))
    sampleClient sampleOrderResponse
  = None.
Proof.
  apply (proj1 (signedQuery_outcomes
                  (libs := sampleLibraries sampleOrderResponse (sampleOnline "<xml/>"))
                  sampleClient "N0" (ORDER_QUERY productionUrls)
                  [("out_trade_no", VStr "1")] ["transaction_id|out_trade_no"]
                  None (Fields sampleOrderResponse)
                  ltac:(vm_compute; right; left))).
Defined.

(** A heap holding the sample order. *)
Lemma extendWithDefault_returns_new_object_witness :
  (extendWithDefaultRef sampleClient "N1" (<[0 := sampleOrder]> ∅) 0 ["notify_url"]).2 !! 0
  = Some sampleOrder.
Proof.
  apply (proj1 (proj2 (proj2 (extendWithDefault_returns_new_object sampleClient "N1"
                                (<[0 := sampleOrder]> ∅) 0 ["notify_url"] sampleOrder
                                (lookup_insert_eq _ _ _))))).
Defined.

Lemma signedQuery_preserves_argument_witness :
  (requestParamsRef (libs := sampleLibraries [] sampleOffline) sampleClient "N0"
     (ORDER_QUERY productionUrls) (<[0 := sampleSigned]> ∅) 0).2 !! 0
  = Some sampleSigned.
Proof.
  apply (proj1 (proj2 (proj2 (signedQuery_preserves_argument
                                (libs := sampleLibraries [] sampleOffline) sampleClient "N0"
                                (ORDER_QUERY productionUrls) (<[0 := sampleSigned]> ∅) 0
                                sampleSigned (lookup_insert_eq _ _ _))))).
Defined.

(** The sample order, which names no [notify_url], after [unifiedOrder]. *)
Lemma unifiedOrder_updates_argument_witness :
  (unifiedOrderRef (libs := sampleLibraries [] sampleOffline) sampleClient "N0"
     (<[0 := sampleOrder]> ∅) 0).2.2 !! 0
  = Some (sampleOrder ++ [("notify_url", VStr "https://shop.example/notify")]).
Proof.
  apply (proj1 (proj2 (unifiedOrder_updates_argument
                         (libs := sampleLibraries [] sampleOffline) sampleClient "N0"
                         (<[0 := sampleOrder]> ∅) 0 sampleOrder
                         (lookup_insert_eq _ _ _)))).
Defined.

(** The sample order after the two-step flow built its request. *)
Lemma getBrandWCPayRequestParams_preserves_order_witness :
  (brandWCPayOrderRef (libs := sampleLibraries [] sampleOffline) sampleClient
     "1700000000" "N0" "N1" "N2" (<[0 := sampleOrder]> ∅) 0).2.2 !! 0
  = Some sampleOrder.
Proof.
  apply (proj1 (getBrandWCPayRequestParams_preserves_order
                  (libs := sampleLibraries [] sampleOffline) sampleClient
                  "1700000000" "N0" "N1" "N2" (<[0 := sampleOrder]> ∅) 0 sampleOrder
                  (lookup_insert_eq _ _ _))).
Defined.

(** The nonce of a transfer request. *)
Lemma request_carries_nonce_witness :
  get (requestParams (libs := sampleLibraries [] sampleOffline) sampleClient
         (generateNonceStr sampleDraws None) (TRANSFERS productionUrls) sampleOrder)
    "nonce_str"
  = VStr (generateNonceStr sampleDraws None).
Proof.
  apply (proj1 (request_carries_nonce (libs := sampleLibraries [] sampleOffline)
                  sampleClient sampleDraws (TRANSFERS productionUrls) sampleOrder
                  sampleDraws_bound wf_sampleOrder
                  ltac:(apply (bool_decide_unpack _); vm_compute; exact I))).
Defined.

(** The sample order names no [notify_url]: the configured one is sent. *)
Lemma unifiedOrder_notify_url_witness :
  get (requestParams (libs := sampleLibraries [] sampleOffline) sampleClient "N0"
         (UNIFIED_ORDER productionUrls)
         (set sampleOrder "notify_url" (VStr "https://shop.example/notify")))
    "notify_url"
  = VStr "https://shop.example/notify".
Proof.
  apply (unifiedOrder_notify_url (libs := sampleLibraries [] sampleOffline) sampleClient
           "N0" sampleOrder wf_sampleOrder).
Defined.

(** A body the parser reads as nothing, for a client without and a client
    with a sub-merchant id. *)
Lemma empty_document_accepted_witness :
  validate (libs := sampleEmptyLibraries) sampleClient "" deliver
  = [Delivered None (Fields [])]
  ∧ validate (libs := sampleEmptyLibraries) sampleSubClient "" deliver
    = [Delivered (Some (ErrObject {| name := "InvalidSubMchId"; message := "" |}))
         (Fields [])].
Proof.
  split.
  - apply (empty_document_accepted (libs := sampleEmptyLibraries) sampleClient ""
             deliver eq_refl).
  - apply (empty_document_accepted (libs := sampleEmptyLibraries) sampleSubClient ""
             deliver eq_refl).
Defined.
